(** * front-vk-api: the graph viewer of [src/main.js]

    A shallow embedding of the script: the JavaScript values it reads from
    the API, the fetch wrappers, the graph builder, the relationship
    resolver and the click handler, followed by the properties of the
    specification that concern them.

    Conventions of the embedding.
    - Numbers that travel through JSON are identifiers and counters: they are
      integers ([Z]).  Coordinates are doubles: the script computes them in
      the arithmetic of the engine that runs it, its multiplication,
      subtraction and [Math] library, which is a parameter of the embedding
      ([arithmetic]).  Two engines are given: the real numbers, where
      nothing is rounded, and IEEE 754 binary64.  A stored coordinate is
      kept as the real number the double stands for.
    - A function that mutates the globals ([nodes], [lines], [selectedNode]),
      the scene or the document is a function on [world] that returns a
      completion (normal or thrown) together with the world it leaves
      behind: what was mutated before a [throw] stays mutated.
    - An [async] function is cut at its [await]: the part before runs in the
      event that called it, the part after runs in the event that delivers
      the outcome of the request. *)

From Stdlib Require Import ZArith Reals Lra Lia.
From Stdlib Require PrimFloat FloatOps SpecFloat Uint63.
From stdpp Require Import gmap strings list pretty.

Set Default Proof Using "Type".

(** ** Values *)

#[local] Unset Elimination Schemes.

(** What [response.json()] can produce, plus [undefined].  Arrays and
    objects are heap references in JavaScript; see [strict_eq]. *)
Inductive value : Type :=
  | VUndef
  | VNull
  | VBool (b : bool)
  | VNum (n : Z)
  | VStr (s : string)
  | VArr (elems : list value)
  | VObj (fields : gmap string value).

#[local] Set Elimination Schemes.

(** An object literal or a parsed JSON object: property name to value. *)
Abbreviation object := (gmap string value).

(** [ToBoolean]: what [||], [&&], [?:] and [if] test. *)
Definition truthy (v : value) : bool :=
  match v with
  | VUndef | VNull => false
  | VBool b => b
  | VNum n => negb (n =? 0)%Z
  | VStr s => match s with EmptyString => false | String _ _ => true end
  | VArr _ | VObj _ => true
  end.

(** [a || b] when evaluating [b] has no effect. *)
Definition js_or (a b : value) : value := if truthy a then a else b.

(** [a === b].  Every comparison of the script has one operand taken from a
    node (parsed from the collection responses) and the other from a
    relationship entry (parsed from a later response), so two arrays or
    two objects compared here are never the same reference. *)
Definition strict_eq (a b : value) : bool :=
  match a, b with
  | VUndef, VUndef => true
  | VNull, VNull => true
  | VBool x, VBool y => Bool.eqb x y
  | VNum x, VNum y => (x =? y)%Z
  | VStr x, VStr y => String.eqb x y
  | _, _ => false
  end.

(** [o.k] on an object built by the script itself. *)
Definition get (o : object) (k : string) : value := default VUndef (o !! k).

(** ** Completions *)

Inductive error : Type := TypeError | NetworkFailure | SyntaxError.

Inductive completion (A : Type) : Type :=
  | Return (a : A)
  | Throw (e : error).
Arguments Return {A} a.
Arguments Throw {A} e.

(** Sequencing of expressions that may throw. *)
Definition and_then {A B} (c : completion A) (k : A -> completion B) : completion B :=
  match c with
  | Return a => k a
  | Throw e => Throw e
  end.

(** [v.k] for the property names the script reads ([user_id], [group_id],
    [id], [relationships], [length], ...): none of them is an array index or
    a member of a prototype, apart from [length]. *)
Definition get_prop (v : value) (k : string) : completion value :=
  match v with
  | VUndef | VNull => Throw TypeError
  | VObj o => Return (get o k)
  | VArr l => Return (if decide (k = "length") then VNum (Z.of_nat (length l)) else VUndef)
  | VStr s => Return (if decide (k = "length") then VNum (Z.of_nat (String.length s)) else VUndef)
  | VBool _ | VNum _ => Return VUndef
  end.

(** The own enumerable properties copied by a spread [{...v}]. *)
Definition index_props (l : list value) : object :=
  list_to_map (imap (fun i x => (pretty i, x)) l).

Fixpoint chars (s : string) : list value :=
  match s with
  | EmptyString => []
  | String c s' => VStr (String c EmptyString) :: chars s'
  end.

Definition own_props (v : value) : object :=
  match v with
  | VObj o => o
  | VArr l => index_props l
  | VStr s => index_props (chars s)
  | VUndef | VNull | VBool _ | VNum _ => ∅
  end.

(** ** The scene and the globals *)

Definition vec3 : Type := R * R * R.

(** A sphere of the graph: a [THREE.Mesh] with its [userData]. *)
Record node : Type := Node {
  node_id : nat;
  color : Z;
  position : vec3;
  userData : object
}.

(** A relationship edge: a [THREE.Line] through two points. *)
Record line : Type := Line3 {
  line_id : nat;
  points : vec3 * vec3
}.

Inductive object3d : Type :=
  | Mesh (n : node)
  | Line (l : line).

Definition object_id (c : object3d) : nat :=
  match c with Mesh n => node_id n | Line l => line_id l end.

Inductive url : Type :=
  | UsersUrl
  | GroupsUrl
  | RelationshipsUrl (nodeType nodeId : value).

(** What reaches the console. *)
Inductive console_msg : Type :=
  | LogFetch (u : url) (data : value)
  | ErrorFetch (e : error)
  | WarnNoNodes
  | WarnNoTarget (rel : value).

(** The outcome of one HTTP request: [fetch] rejects, or resolves to a
    response whose body parses ([Some]) or does not ([None]). *)
Inductive fetch_outcome : Type :=
  | NetworkError
  | Response (status : Z) (body : option value).

Record world : Type := World {
  nodes : list node;
  lines : list line;
  selectedNode : option node;
  scene : list object3d;
  node_info : option (list (string * value));
  console : list console_msg;
  requests : list url;
  in_flight : list node;
  uncaught : list error;
  next_id : nat;
  rng_calls : nat
}.

Definition boot : world :=
  {| nodes := []; lines := []; selectedNode := None; scene := [];
     node_info := None; console := []; requests := []; in_flight := [];
     uncaught := []; next_id := 0; rng_calls := 0 |}.

Definition set_nodes (x : list node) (w : world) : world :=
  World x (lines w) (selectedNode w) (scene w) (node_info w) (console w)
        (requests w) (in_flight w) (uncaught w) (next_id w) (rng_calls w).
Definition set_lines (x : list line) (w : world) : world :=
  World (nodes w) x (selectedNode w) (scene w) (node_info w) (console w)
        (requests w) (in_flight w) (uncaught w) (next_id w) (rng_calls w).
Definition set_selectedNode (x : option node) (w : world) : world :=
  World (nodes w) (lines w) x (scene w) (node_info w) (console w)
        (requests w) (in_flight w) (uncaught w) (next_id w) (rng_calls w).
Definition set_scene (x : list object3d) (w : world) : world :=
  World (nodes w) (lines w) (selectedNode w) x (node_info w) (console w)
        (requests w) (in_flight w) (uncaught w) (next_id w) (rng_calls w).
Definition set_node_info (x : option (list (string * value))) (w : world) : world :=
  World (nodes w) (lines w) (selectedNode w) (scene w) x (console w)
        (requests w) (in_flight w) (uncaught w) (next_id w) (rng_calls w).
Definition set_console (x : list console_msg) (w : world) : world :=
  World (nodes w) (lines w) (selectedNode w) (scene w) (node_info w) x
        (requests w) (in_flight w) (uncaught w) (next_id w) (rng_calls w).
Definition set_requests (x : list url) (w : world) : world :=
  World (nodes w) (lines w) (selectedNode w) (scene w) (node_info w) (console w)
        x (in_flight w) (uncaught w) (next_id w) (rng_calls w).
Definition set_in_flight (x : list node) (w : world) : world :=
  World (nodes w) (lines w) (selectedNode w) (scene w) (node_info w) (console w)
        (requests w) x (uncaught w) (next_id w) (rng_calls w).
Definition set_uncaught (x : list error) (w : world) : world :=
  World (nodes w) (lines w) (selectedNode w) (scene w) (node_info w) (console w)
        (requests w) (in_flight w) x (next_id w) (rng_calls w).
Definition set_next_id (x : nat) (w : world) : world :=
  World (nodes w) (lines w) (selectedNode w) (scene w) (node_info w) (console w)
        (requests w) (in_flight w) (uncaught w) x (rng_calls w).
Definition set_rng_calls (x : nat) (w : world) : world :=
  World (nodes w) (lines w) (selectedNode w) (scene w) (node_info w) (console w)
        (requests w) (in_flight w) (uncaught w) (next_id w) x.

(** ** Effectful code: world passing with exceptions *)

Definition M (A : Type) : Type := world -> completion A * world.

Definition ret {A} (a : A) : M A := fun w => (Return a, w).
Definition throw {A} (e : error) : M A := fun w => (Throw e, w).
Definition bind {A B} (c : M A) (k : A -> M B) : M B :=
  fun w => match c w with
           | (Return a, w') => k a w'
           | (Throw e, w') => (Throw e, w')
           end.
Definition lift {A} (c : completion A) : M A := fun w => (c, w).
Definition modify (f : world -> world) : M unit := fun w => (Return tt, f w).
Definition try_catch {A} (c : M A) (handler : error -> M A) : M A :=
  fun w => match c w with
           | (Return a, w') => (Return a, w')
           | (Throw e, w') => handler e w'
           end.

Declare Scope js_scope.
Delimit Scope js_scope with js.
Notation "x <- c ;; k" := (bind c (fun x => k))
  (at level 100, c at next level, right associativity) : js_scope.
Notation "c ;; k" := (bind c (fun _ => k))
  (at level 100, right associativity) : js_scope.
Local Open Scope js_scope.

(** [arr.forEach(body)]: a receiver that is not an array has no [forEach]. *)
Fixpoint for_each {A} (body : A -> M unit) (l : list A) : M unit :=
  match l with
  | [] => ret tt
  | a :: l' => body a ;; for_each body l'
  end.

Definition forEach (arr : value) (body : value -> M unit) : M unit :=
  match arr with
  | VArr l => for_each body l
  | _ => throw TypeError
  end.

Definition console_put (m : console_msg) : M unit :=
  modify (fun w => set_console (console w ++ [m]) w).

(** [new THREE.Mesh] and [new THREE.Line]: every [Object3D] takes the next
    [id]. *)
Definition new_object3d : M nat :=
  fun w => (Return (next_id w), set_next_id (S (next_id w)) w).

(** [scene.add(c)] of an object that has no parent yet. *)
Definition scene_add (c : object3d) : M unit :=
  modify (fun w => set_scene (scene w ++ [c]) w).

(** [scene.remove(c)]: the child that is this very object is spliced out. *)
Fixpoint remove_child (i : nat) (cs : list object3d) : list object3d :=
  match cs with
  | [] => []
  | c :: cs' => if decide (object_id c = i) then cs' else c :: remove_child i cs'
  end.

Definition scene_remove (i : nat) : M unit :=
  modify (fun w => set_scene (remove_child i (scene w)) w).

(** ** The fetch wrappers *)

(** [await fetch(url, options)] followed by [await response.json()], given
    the outcome of the request.  The status of the response is not looked
    at. *)
Definition fetch_json (o : fetch_outcome) : M value :=
  match o with
  | NetworkError => throw NetworkFailure
  | Response _ None => throw SyntaxError
  | Response _ (Some data) => ret data
  end.

(** [logFetch], from the point where the request has an outcome. *)
Definition logFetch (u : url) (o : fetch_outcome) : M value :=
  try_catch
    (data <- fetch_json o ;;
     console_put (LogFetch u data) ;;
     ret data)
    (fun e => console_put (ErrorFetch e) ;; ret VNull).

(** The request is sent when [logFetch] is called. *)
Definition send (u : url) : M unit :=
  modify (fun w => set_requests (requests w ++ [u]) w).

(** [fetchNodes]: both requests are sent, [Promise.all] waits for the two
    [logFetch] promises, then the result object is built. *)
Definition fetchNodes (uo go : fetch_outcome) : M (value * value) :=
  send UsersUrl ;;
  send GroupsUrl ;;
  usersResponse <- logFetch UsersUrl uo ;;
  groupsResponse <- logFetch GroupsUrl go ;;
  ret (js_or usersResponse (VArr []), js_or groupsResponse (VArr [])).

(** ** The graph builder *)

Definition nodeColors (kind : string) : Z :=
  if decide (kind = "user") then 0xff0000 else 0x0000ff.

(** The numbers of the engine that runs the script.  [createGraph]
    multiplies and subtracts doubles and calls [Math.cbrt], [Math.sin],
    [Math.cos] and [Math.acos], which the language leaves to the engine
    (their results are implementation-approximated).  An [arithmetic] gives
    the numbers, what each of these operations returns, the number a
    literal denotes ([lit]), which numbers are finite ([num_finite]: neither
    an infinity nor a NaN) and the real number a number stands for
    ([to_R]). *)
Class arithmetic : Type := Arithmetic {
  num : Type;
  num_finite : num -> bool;
  to_R : num -> R;
  lit : Z -> num;
  num_mul : num -> num -> num;
  num_sub : num -> num -> num;
  Math_PI : num;
  Math_cbrt : num -> num;
  Math_sin : num -> num;
  Math_cos : num -> num;
  Math_acos : num -> num
}.

Declare Scope num_scope.
Delimit Scope num_scope with num.
Infix "*" := num_mul : num_scope.
Infix "-" := num_sub : num_scope.

(** The arguments of [sphere.position.set]:
    [d sin(phi) cos(theta), d sin(phi) sin(theta), d cos(phi)], each product
    computed from left to right by the engine. *)
Definition spherical `{engine : arithmetic} (distance theta phi : num) : num * num * num :=
  ((distance * Math_sin phi * Math_cos theta)%num,
   (distance * Math_sin phi * Math_sin theta)%num,
   (distance * Math_cos phi)%num).

(** The position a sphere keeps: the real numbers its three doubles stand
    for. *)
Definition stored `{engine : arithmetic} (p : num * num * num) : vec3 :=
  (to_R p.1.1, to_R p.1.2, to_R p.2).

(** The cube root of a real number. *)
Definition cbrt (x : R) : R :=
  if Rlt_le_dec 0 x then Rpower x (/ 3)
  else if Rlt_le_dec x 0 then (- Rpower (- x) (/ 3))%R
  else 0%R.

(** The engine that computes with real numbers: no product is rounded and
    [Math.cbrt], [Math.sin], [Math.cos] and [Math.acos] are the functions
    they approximate.  No browser is this engine; it says what the formulas
    of the script mean. *)
Definition ideal : arithmetic :=
  {| num := R; num_finite := fun _ => true; to_R := fun x => x; lit := IZR;
     num_mul := Rmult; num_sub := Rminus; Math_PI := PI;
     Math_cbrt := cbrt; Math_sin := sin; Math_cos := cos; Math_acos := acos |}.

(** The real number a finite double stands for: its mantissa times a power
    of two.  (An infinity or a NaN, which stand for no real number, are sent
    to [0].) *)
Definition SF2R (x : SpecFloat.spec_float) : R :=
  match x with
  | SpecFloat.S754_finite s m e =>
      (IZR (if s then Z.neg m else Z.pos m) * powerRZ 2 e)%R
  | _ => 0%R
  end.

Definition double_to_R (x : PrimFloat.float) : R := SF2R (FloatOps.Prim2SF x).

(** An engine as browsers have it: the numbers are the IEEE 754 binary64
    doubles, products and differences are rounded to the nearest double,
    and [Math] is the library [pi], [cbrt], [sin], [cos], [acos] of the
    engine.  (The literals of the script are [15], [2] and [1].) *)
Definition binary64 (pi : PrimFloat.float)
    (cbrt sin cos acos : PrimFloat.float -> PrimFloat.float) : arithmetic :=
  {| num := PrimFloat.float; num_finite := PrimFloat.is_finite;
     to_R := double_to_R;
     lit := fun z => PrimFloat.of_uint63 (Uint63.of_Z z);
     num_mul := PrimFloat.mul; num_sub := PrimFloat.sub; Math_PI := pi;
     Math_cbrt := cbrt; Math_sin := sin; Math_cos := cos; Math_acos := acos |}.

(** The object literal assigned to [sphere.userData] for a user: the record
    is spread first, the named properties are written over it. *)
Definition user_data (user : value) : completion object :=
  and_then (get_prop user "user_id") (fun user_id =>
  and_then (if truthy user_id then Return user_id else get_prop user "id") (fun ident =>
  and_then (get_prop user "sex") (fun sex =>
  and_then (get_prop user "home_town") (fun home_town =>
  and_then (get_prop user "city") (fun city =>
  Return (<["city" := city]> (<["home_town" := home_town]> (<["sex" := sex]>
         (<["user_id" := ident]> (<["type" := VStr "user"]> (own_props user))))))))))).

(** The same for a group. *)
Definition group_data (group : value) : completion object :=
  and_then (get_prop group "group_id") (fun group_id =>
  and_then (if truthy group_id then Return group_id else get_prop group "id") (fun ident =>
  Return (<["group_id" := ident]> (<["type" := VStr "group"]> (own_props group))))).

Section Graph.

Context `{engine : arithmetic}.

(** [random k] is what the [k]-th call of [Math.random] returns. *)
Variable random : nat -> num.

Definition Math_random : M num :=
  fun w => (Return (random (rng_calls w)), set_rng_calls (S (rng_calls w)) w).

(** The body of both [forEach] callbacks of [createGraph]. *)
Definition add_sphere (kind : string) (data_of : value -> completion object)
    (record : value) : M unit :=
  id <- new_object3d ;;
  u <- Math_random ;;
  let distance := (lit 15 * Math_cbrt u)%num in
  t <- Math_random ;;
  let theta := (t * lit 2 * Math_PI)%num in
  v <- Math_random ;;
  let phi := Math_acos (lit 2 * v - lit 1)%num in
  data <- lift (data_of record) ;;
  let sphere := {| node_id := id; color := nodeColors kind;
                   position := stored (spherical distance theta phi);
                   userData := data |} in
  modify (fun w => set_nodes (nodes w ++ [sphere]) w) ;;
  scene_add (Mesh sphere).

(** [createGraph], from the point where both requests have an outcome. *)
Definition createGraph (uo go : fetch_outcome) : M unit :=
  r <- fetchNodes uo go ;;
  let users := r.1 in
  let groups := r.2 in
  users_length <- lift (get_prop users "length") ;;
  groups_length <- (if strict_eq users_length (VNum 0)
                    then lift (get_prop groups "length") else ret VUndef) ;;
  if strict_eq users_length (VNum 0) && strict_eq groups_length (VNum 0)
  then console_put WarnNoNodes
  else
    forEach users (add_sphere "user" user_data) ;;
    forEach groups (add_sphere "group" group_data).

End Graph.

(** ** The relationship resolver *)

(** One side of the predicate given to [nodes.find]:
    [n.userData.k && n.userData.k === rel.k].  [rel.k] is read only when the
    left operand is truthy. *)
Definition field_matches (k : string) (n : node) (rel : value) : completion bool :=
  let mine := get (userData n) k in
  if truthy mine
  then and_then (get_prop rel k) (fun theirs => Return (strict_eq mine theirs))
  else Return false.

(** The whole predicate: the [user_id] side, or else the [group_id] side. *)
Definition node_matches (rel : value) (n : node) : completion bool :=
  and_then (field_matches "user_id" n rel) (fun by_user =>
  if by_user then Return true else field_matches "group_id" n rel).

(** [arr.find(p)]: the first element for which [p] is truthy. *)
Fixpoint find {A} (p : A -> completion bool) (l : list A) : completion (option A) :=
  match l with
  | [] => Return None
  | a :: l' =>
      match p a with
      | Return true => Return (Some a)
      | Return false => find p l'
      | Throw e => Throw e
      end
  end.

(** [clearConnections] *)
Definition clearConnections : M unit :=
  (fun w => for_each (fun l => scene_remove (line_id l)) (lines w) w) ;;
  modify (set_lines []).

(** The body of the [forEach] callback of [displayNodeInfo]. *)
Definition connect (node : node) (rel : value) : M unit :=
  targetNode <- (fun w => lift (find (node_matches rel) (nodes w)) w) ;;
  match targetNode with
  | Some target =>
      id <- new_object3d ;;
      let l := {| line_id := id; points := (position node, position target) |} in
      scene_add (Line l) ;;
      modify (fun w => set_lines (lines w ++ [l]) w)
  | None => console_put (WarnNoTarget rel)
  end.

(** [updateNodeInfoDisplay]: afterwards the document holds one [#node-info]
    element with these rows. *)
Definition info_rows (data : object) : list (string * value) :=
  let placeholder v := js_or v (VStr "-") in
  ("Type", get data "type") ::
  if strict_eq (get data "type") (VStr "user") then
    [("ID", placeholder (get data "user_id"));
     ("Name", placeholder (get data "name"));
     ("Sex", placeholder (get data "sex"));
     ("Home Town", placeholder (get data "home_town"));
     ("City", placeholder (get data "city"))]
  else if strict_eq (get data "type") (VStr "group") then
    [("ID", placeholder (get data "group_id"));
     ("Name", placeholder (get data "name"));
     ("Subscribers Count", js_or (get data "subscribers_count") (VStr "0"))]
  else [].

Definition updateNodeInfoDisplay (data : object) : M unit :=
  modify (set_node_info (Some (info_rows data))).

(** The address [fetchNodeRelationships] asks for. *)
Definition relationships_url (n : node) : url :=
  let data := userData n in
  RelationshipsUrl (get data "type") (js_or (get data "user_id") (get data "group_id")).

(** [displayNodeInfo] up to its [await]: the request leaves, the call is
    suspended. *)
Definition displayNodeInfo_call (node : node) : M unit :=
  clearConnections ;;
  send (relationships_url node) ;;
  modify (fun w => set_in_flight (in_flight w ++ [node]) w).

(** [displayNodeInfo] after its [await]. *)
Definition displayNodeInfo_resume (node : node) (o : fetch_outcome) : M unit :=
  let data := userData node in
  relationshipsData <- logFetch (relationships_url node) o ;;
  relationships <- (if truthy relationshipsData
                    then lift (get_prop relationshipsData "relationships")
                    else ret (VArr [])) ;;
  forEach relationships (connect node) ;;
  updateNodeInfoDisplay data.

(** ** The selection controller *)

Definition clearSelection : M unit :=
  fun w => match selectedNode w with
           | Some _ =>
               (modify (set_node_info None) ;;
                clearConnections ;;
                modify (set_selectedNode None)) w
           | None => (Return tt, w)
           end.

(** [onDocumentClick], given what the ray hits first among [nodes]. *)
Definition onDocumentClick (hit : option node) : M unit :=
  match hit with
  | Some n =>
      clearSelection ;;
      modify (set_selectedNode (Some n)) ;;
      displayNodeInfo_call n
  | None => clearSelection
  end.

(** ** The event loop *)

Inductive event : Type :=
  | Click (hit : option node)
  | RelFetched (k : nat) (o : fetch_outcome).

(** The world an event leaves behind.  [RelFetched k o] resumes the [k]-th
    suspended [displayNodeInfo]; nobody awaits or catches that call, so what
    it throws ends up as an unhandled rejection. *)
Definition step (w : world) (e : event) : world :=
  match e with
  | Click hit => (onDocumentClick hit w).2
  | RelFetched k o =>
      match in_flight w !! k with
      | None => w
      | Some n =>
          match displayNodeInfo_resume n o (set_in_flight (delete k (in_flight w)) w) with
          | (Return _, w') => w'
          | (Throw e, w') => set_uncaught (uncaught w' ++ [e]) w'
          end
      end
  end.

Definition run (w : world) (evs : list event) : world := foldl step w evs.

(** The world once [createGraph] has finished, one way or the other. *)
Definition loaded `{engine : arithmetic} (random : nat -> num)
    (uo go : fetch_outcome) : world :=
  match createGraph random uo go boot with
  | (Return _, w) => w
  | (Throw e, w) => set_uncaught (uncaught w ++ [e]) w
  end.

(** The relationship edges of the scene. *)
Definition drawn_edges (w : world) : list line :=
  omap (fun c => match c with Line l => Some l | Mesh _ => None end) (scene w).

(** * What the code computes, as pure functions

    The functions of this part are the vocabulary of the statements; each is
    tied to the code by a lemma below. *)

(** What [logFetch] returns. *)
Definition received (o : fetch_outcome) : value :=
  match o with
  | Response _ (Some data) => data
  | _ => VNull
  end.

(** What [logFetch] writes to the console. *)
Definition fetch_log (u : url) (o : fetch_outcome) : console_msg :=
  match o with
  | NetworkError => ErrorFetch NetworkFailure
  | Response _ None => ErrorFetch SyntaxError
  | Response _ (Some data) => LogFetch u data
  end.

(** [userData] of the sphere built from a record that is a JSON object. *)
Definition user_object (user : object) : object :=
  <["city" := get user "city"]> (<["home_town" := get user "home_town"]>
  (<["sex" := get user "sex"]> (<["user_id" := js_or (get user "user_id") (get user "id")]>
  (<["type" := VStr "user"]> user)))).

Definition group_object (group : object) : object :=
  <["group_id" := js_or (get group "group_id") (get group "id")]>
  (<["type" := VStr "group"]> group).

(** The elements a [forEach] visits. *)
Definition records (v : value) : list value :=
  match v with
  | VArr l => l
  | _ => []
  end.

Definition is_array (v : value) : bool :=
  match v with
  | VArr _ => true
  | _ => false
  end.

(** The [userData] objects of the records that precede the first record on
    which building [userData] throws. *)
Fixpoint datas (data_of : value -> completion object) (l : list value) : list object :=
  match l with
  | [] => []
  | r :: l' =>
      match data_of r with
      | Return d => d :: datas data_of l'
      | Throw _ => []
      end
  end.

Fixpoint all_ok (data_of : value -> completion object) (l : list value) : bool :=
  match l with
  | [] => true
  | r :: l' =>
      match data_of r with
      | Return _ => all_ok data_of l'
      | Throw _ => false
      end
  end.

(** The position computed from the three draws that start at the [k]-th. *)
Definition place `{engine : arithmetic} (random : nat -> num) (k : nat) : vec3 :=
  stored (spherical (lit 15 * Math_cbrt (random k))%num
                    (random (S k) * lit 2 * Math_PI)%num
                    (Math_acos (lit 2 * random (S (S k)) - lit 1)%num)).

(** The spheres built for [ds] when ids start at [id0] and draws at [rng0]. *)
Definition spheres `{engine : arithmetic} (random : nat -> num) (kind : string)
    (id0 rng0 : nat) (ds : list object) : list node :=
  imap (fun i d => {| node_id := id0 + i; color := nodeColors kind;
                      position := place random (rng0 + 3 * i); userData := d |}) ds.

(** The world after one [forEach] of [createGraph] over [l]: a record that
    throws has already taken an id and three draws. *)
Definition build `{engine : arithmetic} (random : nat -> num) (kind : string)
    (data_of : value -> completion object) (l : list value) (w : world) : world :=
  let new := spheres random kind (next_id w) (rng_calls w) (datas data_of l) in
  let tried := length new + (if all_ok data_of l then 0 else 1) in
  World (nodes w ++ new) (lines w) (selectedNode w) (scene w ++ (Mesh <$> new))
        (node_info w) (console w) (requests w) (in_flight w) (uncaught w)
        (next_id w + tried) (rng_calls w + 3 * tried).

(** The list a collection request contributes to [fetchNodes]. *)
Definition collection (o : fetch_outcome) : value :=
  js_or (received o) (VArr []).

(** The spheres [createGraph] registers for the two lists of [fetchNodes],
    when ids start at [id0] and draws at [rng0]: those of the users, then,
    unless the first [forEach] threw, those of the groups. *)
Definition graph_nodes `{engine : arithmetic} (random : nat -> num) (id0 rng0 : nat)
    (users groups : value) : list node :=
  let us := datas user_data (records users) in
  spheres random "user" id0 rng0 us ++
  (if is_array users && all_ok user_data (records users)
   then spheres random "group" (id0 + length us) (rng0 + 3 * length us)
          (datas group_data (records groups))
   else []).

(** The world after [fetchNodes]. *)
Definition after_fetchNodes (uo go : fetch_outcome) (w : world) : world :=
  World (nodes w) (lines w) (selectedNode w) (scene w) (node_info w)
        (console w ++ [fetch_log UsersUrl uo; fetch_log GroupsUrl go])
        (requests w ++ [UsersUrl; GroupsUrl]) (in_flight w) (uncaught w)
        (next_id w) (rng_calls w).

(** [w'] is [w] with the spheres [new] registered and added to the scene,
    under ids that were free in [w]; the selection is untouched. *)
Definition grown (new : list node) (w w' : world) : Prop :=
  nodes w' = nodes w ++ new /\
  scene w' = scene w ++ (Mesh <$> new) /\
  lines w' = lines w /\
  selectedNode w' = selectedNode w /\
  node_info w' = node_info w /\
  in_flight w' = in_flight w /\
  next_id w <= next_id w' /\
  Forall (fun m => next_id w <= node_id m /\ node_id m < next_id w') new.

(** The value [relationships.forEach] is called on. *)
Definition relationships_of (o : fetch_outcome) : value :=
  if truthy (received o) then
    match get_prop (received o) "relationships" with
    | Return v => v
    | Throw _ => VUndef
    end
  else VArr [].

Definition entries (o : fetch_outcome) : list value :=
  match relationships_of o with
  | VArr l => l
  | _ => []
  end.

(** The targets found entry by entry, up to the first entry on which the
    predicate throws. *)
Fixpoint targets (ns : list node) (rels : list value) : list node :=
  match rels with
  | [] => []
  | rel :: rels' =>
      match find (node_matches rel) ns with
      | Return (Some t) => t :: targets ns rels'
      | Return None => targets ns rels'
      | Throw _ => []
      end
  end.

(** The entries skipped with a warning, up to the same point. *)
Fixpoint unresolved (ns : list node) (rels : list value) : list value :=
  match rels with
  | [] => []
  | rel :: rels' =>
      match find (node_matches rel) ns with
      | Return (Some _) => unresolved ns rels'
      | Return None => rel :: unresolved ns rels'
      | Throw _ => []
      end
  end.

Fixpoint resolve_throws (ns : list node) (rels : list value) : bool :=
  match rels with
  | [] => false
  | rel :: rels' =>
      match find (node_matches rel) ns with
      | Return _ => resolve_throws ns rels'
      | Throw _ => true
      end
  end.

Definition resolution_throws (ns : list node) (o : fetch_outcome) : bool :=
  match relationships_of o with
  | VArr l => resolve_throws ns l
  | _ => true
  end.

(** The end points of an edge from [n] to [t]. *)
Definition edge (n t : node) : vec3 * vec3 := (position n, position t).

(** The edges the resolver yields for [n] from the outcome [o] of its
    request. *)
Definition resolution (ns : list node) (n : node) (o : fetch_outcome) : list (vec3 * vec3) :=
  edge n <$> targets ns (entries o).

Definition new_lines (id0 : nat) (n : node) (ts : list node) : list line :=
  imap (fun i t => {| line_id := id0 + i; points := edge n t |}) ts.

(** The world after [ls] were drawn and [msgs] were written. *)
Definition draw (ls : list line) (msgs : list console_msg) (w : world) : world :=
  World (nodes w) (lines w ++ ls) (selectedNode w) (scene w ++ (Line <$> ls))
        (node_info w) (console w ++ msgs) (requests w) (in_flight w) (uncaught w)
        (next_id w + length ls) (rng_calls w).

(** The world [displayNodeInfo] leaves behind once the request of [n] has
    the outcome [o]; the information panel is only reached if nothing was
    thrown before. *)
Definition resumed (n : node) (o : fetch_outcome) (w : world) : world :=
  let w' := draw (new_lines (next_id w) n (targets (nodes w) (entries o)))
                 (fetch_log (relationships_url n) o
                  :: (WarnNoTarget <$> unresolved (nodes w) (entries o))) w in
  if resolution_throws (nodes w) o then w'
  else set_node_info (Some (info_rows (userData n))) w'.

(** The world after a click on [n], and after a click on nothing, when every
    line of the scene is in [lines]. *)
Definition clicked (n : node) (w : world) : world :=
  World (nodes w) [] (Some n) (Mesh <$> nodes w)
        (match selectedNode w with Some _ => None | None => node_info w end)
        (console w) (requests w ++ [relationships_url n]) (in_flight w ++ [n])
        (uncaught w) (next_id w) (rng_calls w).

Definition unselected (w : world) : world :=
  match selectedNode w with
  | Some _ =>
      World (nodes w) [] None (Mesh <$> nodes w) None (console w) (requests w)
            (in_flight w) (uncaught w) (next_id w) (rng_calls w)
  | None => w
  end.

(** Every sphere was created before every line: some [bound] separates
    their ids, and no id at or above [next_id] is in use. *)
Definition tidy (w : world) : Prop :=
  scene w = (Mesh <$> nodes w) ++ (Line <$> lines w) /\
  exists bound,
    Forall (fun m => node_id m < bound) (nodes w) /\
    Forall (fun l => bound <= line_id l) (lines w) /\
    bound <= next_id w.

(** The two parts of the registry. *)
Definition user_spheres `{engine : arithmetic} (random : nat -> num)
    (uo : fetch_outcome) : list node :=
  spheres random "user" 0 0 (datas user_data (records (collection uo))).

Definition group_spheres `{engine : arithmetic} (random : nat -> num)
    (uo go : fetch_outcome) : list node :=
  let users := collection uo in
  let us := datas user_data (records users) in
  if is_array users && all_ok user_data (records users)
  then spheres random "group" (length us) (3 * length us)
         (datas group_data (records (collection go)))
  else [].

(** The world after a click on [n] followed by the outcome [o] of the
    request that click sent, when every line of the scene is in [lines]. *)
Definition resolved_selection (n : node) (o : fetch_outcome) (w : world) : world :=
  let ls := new_lines (next_id w) n (targets (nodes w) (entries o)) in
  let throws := resolution_throws (nodes w) o in
  World (nodes w) ls (Some n) ((Mesh <$> nodes w) ++ (Line <$> ls))
        (if throws
         then match selectedNode w with Some _ => None | None => node_info w end
         else Some (info_rows (userData n)))
        (console w ++ fetch_log (relationships_url n) o
                      :: (WarnNoTarget <$> unresolved (nodes w) (entries o)))
        (requests w ++ [relationships_url n]) (in_flight w)
        (uncaught w ++ (if throws then [TypeError] else []))
        (next_id w + length ls) (rng_calls w).

(** ** Runs in which every request is answered before the next click *)

Definition enabled (w : world) (e : event) : bool :=
  match e with
  | Click _ => match in_flight w with [] => true | _ :: _ => false end
  | RelFetched k _ => bool_decide (k < length (in_flight w))
  end.

Fixpoint well_paced (w : world) (evs : list event) : bool :=
  match evs with
  | [] => true
  | e :: evs' => enabled w e && well_paced (step w e) evs'
  end.

(** The outcome of the request answered last. *)
Fixpoint last_fetched (evs : list event) : option fetch_outcome :=
  match evs with
  | [] => None
  | e :: evs' =>
      match last_fetched evs' with
      | Some o => Some o
      | None => match e with RelFetched _ o => Some o | Click _ => None end
      end
  end.

(** What holds along a well-paced run: at most the request of the selected
    node is in flight, and the overlay is empty until it is answered. *)
Definition paced_invariant (evs : list event) (w : world) : Prop :=
  tidy w /\
  match selectedNode w with
  | None => lines w = [] /\ node_info w = None /\ in_flight w = []
  | Some n =>
      (in_flight w = [n] /\ lines w = []) \/
      (in_flight w = [] /\
       exists o, last_fetched evs = Some o /\
                 points <$> lines w = resolution (nodes w) n o)
  end.

(** ** The statements of the specification *)

(** The invariant of the selection state, after the events [evs]: nothing
    selected means no edge and no panel; a selected node carries no edge
    while its request is in flight, and afterwards exactly the edges of the
    last resolution. *)
Definition selection_invariant (evs : list event) (w : world) : Prop :=
  match selectedNode w with
  | None => drawn_edges w = [] /\ node_info w = None
  | Some n =>
      (in_flight w = [n] /\ drawn_edges w = []) \/
      (in_flight w = [] /\
       exists o, last_fetched evs = Some o /\
                 points <$> drawn_edges w = resolution (nodes w) n o)
  end.

(** The first element that satisfies a total predicate. *)
Fixpoint first_node (p : node -> bool) (ns : list node) : option node :=
  match ns with
  | [] => None
  | n :: ns' => if p n then Some n else first_node p ns'
  end.

(** An entry carries a user (group) reference when it has the field. *)
Definition carries (rel : object) (k : string) : bool :=
  match rel !! k with Some _ => true | None => false end.

(** The match of the specification: the identity of the node, under the
    field the entry carries, equals the reference of the entry. *)
Definition refers_to (rel : object) (n : node) : bool :=
  carries rel "user_id" && strict_eq (get (userData n) "user_id") (get rel "user_id")
  || carries rel "group_id" && strict_eq (get (userData n) "group_id") (get rel "group_id").

(** The same, for identities that are truthy. *)
Definition refers_to_truthy (rel : object) (n : node) : bool :=
  carries rel "user_id" && truthy (get (userData n) "user_id")
    && strict_eq (get (userData n) "user_id") (get rel "user_id")
  || carries rel "group_id" && truthy (get (userData n) "group_id")
    && strict_eq (get (userData n) "group_id") (get rel "group_id").

(** The edges of [n] for the entries [rels], in their order, under a match
    [p]: one edge to the first known node that matches, none for an entry
    without a match. *)
Definition edges_by (p : object -> node -> bool) (ns : list node) (n : node)
    (rels : list object) : list (vec3 * vec3) :=
  edge n <$> omap (fun rel => first_node (p rel) ns) rels.

(** A well-formed response to the relationships request. *)
Definition relationships_response (status : Z) (extra : object) (rels : list object) :
    fetch_outcome :=
  Response status (Some (VObj (<["relationships" := VArr (VObj <$> rels)]> extra))).

(** A well-formed response to a collection request. *)
Definition collection_response (status : Z) (rs : list object) : fetch_outcome :=
  Response status (Some (VArr (VObj <$> rs))).

(** The identity of a record as the specification words it: the field of
    its kind when the record has it, the generic [id] when it has not. *)
Definition identity_as_specified (k : string) (record : object) (identity : value) : Prop :=
  (forall v, record !! k = Some v -> identity = v) /\
  (record !! k = None -> identity = get record "id").

(** The identity [displayNodeInfo] asks the relationships of:
    [data.user_id || data.group_id]. *)
Definition node_identity (n : node) : value :=
  js_or (get (userData n) "user_id") (get (userData n) "group_id").

(** The identity a node is stored with: [user_id] for a user, [group_id]
    for a group. *)
Definition stored_identity (n : node) : value :=
  if strict_eq (get (userData n) "type") (VStr "user")
  then get (userData n) "user_id"
  else get (userData n) "group_id".

(** A request that fails in transport or whose body does not parse. *)
Inductive failure : Type :=
  | Transport
  | Unparsable (status : Z).

Definition failed (f : failure) : fetch_outcome :=
  match f with
  | Transport => NetworkError
  | Unparsable status => Response status None
  end.

(** The distance of a point from the origin. *)
Definition norm (p : vec3) : R :=
  sqrt (Rsqr p.1.1 + Rsqr p.1.2 + Rsqr p.2).

(** How close an engine is to the real numbers.  A product that is finite
    is the product of the real numbers up to the relative error [u] and the
    absolute error [eta]: IEEE 754 rounding to nearest has [u] = 2^-53, and
    [eta] = 2^-1075 for the products that underflow.  What [Math.sin] and
    [Math.cos] return, when finite, is within [eps] of the sine and the
    cosine, and so is what [Math.cbrt] returns for a number of the unit
    interval.  A number that is not finite stands for the real number [0],
    and the literal [15] denotes 15. *)
Record accurate `{engine : arithmetic} (u eps eta : R) : Prop := Accurate {
  accurate_u : (0 <= u <= 1)%R;
  accurate_eps : (0 <= eps <= 1)%R;
  accurate_eta : (0 <= eta)%R;
  accurate_finite : forall x : num, num_finite x = false -> to_R x = 0%R;
  accurate_lit : to_R (lit 15) = 15%R;
  accurate_mul : forall a b : num,
    num_finite (a * b)%num = true ->
    (Rabs (to_R (a * b)%num - to_R a * to_R b)
     <= u * Rabs (to_R a * to_R b) + eta)%R;
  accurate_cbrt : forall x : num,
    (0 <= to_R x < 1)%R ->
    num_finite (Math_cbrt x) = true ->
    (Rabs (to_R (Math_cbrt x) - cbrt (to_R x)) <= eps)%R;
  accurate_sin : forall x : num,
    num_finite (Math_sin x) = true ->
    (Rabs (to_R (Math_sin x) - sin (to_R x)) <= eps)%R;
  accurate_cos : forall x : num,
    num_finite (Math_cos x) = true ->
    (Rabs (to_R (Math_cos x) - cos (to_R x)) <= eps)%R
}.

(** By how much the relative errors of such an engine can stretch a
    position: three roundings on the way to a coordinate, the error of the
    cube root in the distance and those of the sines and cosines in the
    direction.  [slack 0 0] is [1]. *)
Definition slack (u eps : R) : R :=
  ((1 + u) ^ 3 * (1 + eps) * (1 + 2 * eps) ^ 2)%R.

(** ** Sample inputs *)

(** Every draw of [Math.random] returns [0]; the samples are computed by
    the engine of the real numbers. *)
Definition no_jitter : nat -> @num ideal := fun _ => 0%R.

(** The scenario of the specification: one user [{id: 1, name: "A"}], no
    group, and a relationship of the user with itself. *)
Definition one_user : fetch_outcome :=
  collection_response 200 [ {[ "id" := VNum 1; "name" := VStr "A" ]} ].

Definition no_groups : fetch_outcome := collection_response 200 [].

Definition sample_world : world := loaded no_jitter one_user no_groups.

Definition sample_node : node :=
  Node 0 0xff0000 (place no_jitter 0)
       (user_object {[ "id" := VNum 1; "name" := VStr "A" ]}).

Definition self_reference : fetch_outcome :=
  relationships_response 200 ∅ [ {[ "user_id" := VNum 1 ]} ].

(** The answer to the request of a click arrives after the click that
    deselects. *)
Definition racy_run : list event :=
  [Click (Some sample_node); Click None; RelFetched 0 self_reference].

Definition paced_run : list event :=
  [Click (Some sample_node); RelFetched 0 self_reference; Click None;
   Click (Some sample_node)].

(** A user whose generic [id] is [0], and an entry that refers to it. *)
Definition user_zero : fetch_outcome :=
  collection_response 200 [ {[ "id" := VNum 0 ]} ].

Definition zero_world : world := loaded no_jitter user_zero no_groups.

Definition zero_node : node :=
  Node 0 0xff0000 (place no_jitter 0) (user_object {[ "id" := VNum 0 ]}).

Definition zero_entry : object := {[ "user_id" := VNum 0 ]}.

(** An error body under a 404 status. *)
Definition not_found : fetch_outcome :=
  Response 404 (Some (VObj {[ "detail" := VStr "Not found" ]})).

(** A user and a group with the same identity, and an entry that carries
    both references. *)
Definition user_seven : fetch_outcome :=
  collection_response 200 [ {[ "id" := VNum 7 ]} ].

Definition group_seven : fetch_outcome :=
  collection_response 200 [ {[ "id" := VNum 7 ]} ].

Definition user_seven_node : node :=
  Node 0 0xff0000 (place no_jitter 0) (user_object {[ "id" := VNum 7 ]}).

Definition group_seven_node : node :=
  Node 1 0x0000ff (place no_jitter 3) (group_object {[ "id" := VNum 7 ]}).

Definition both_sevens : value :=
  VObj {[ "user_id" := VNum 7; "group_id" := VNum 7 ]}.

(** A record whose [user_id] is present and falsy. *)
Definition falsy_user_id : object := {[ "user_id" := VNum 0; "id" := VNum 5 ]}.

(** A user whose generic [id] is [0] and whose record carries the identity
    of a group, and an entry that refers to that group. *)
Definition member_zero : object := {[ "id" := VNum 0; "group_id" := VNum 4 ]}.

Definition member_zero_node : node :=
  Node 0 0xff0000 (place no_jitter 0) (user_object member_zero).

Definition group_four : object := {[ "group_id" := VNum 4 ]}.

(** A function on doubles given by its values at some arguments. *)
Fixpoint tabulated (rows : list (PrimFloat.float * PrimFloat.float))
    (x : PrimFloat.float) : PrimFloat.float :=
  match rows with
  | [] => PrimFloat.nan
  | (a, b) :: rows' => if PrimFloat.eqb x a then b else tabulated rows' x
  end.

Section Doubles.

Import PrimFloat.

(** Three draws: the largest double below 1 (0.9999999999999999), then 0,
    then 0.25. *)
Definition far_draws (k : nat) : float :=
  match k with
  | 0 => 0x1.fffffffffffffp-1%float
  | 1 => 0%float
  | _ => 0x1p-2%float
  end.

(** A browser, as far as the three draws need it: binary64 arithmetic, and
    a [Math] library given by its values at the arguments the draws lead
    to, each within one unit in the last place of the exact value:
    [Math.cbrt(0.9999999999999999)] is [0.9999999999999999],
    [Math.acos(-0.5)] is [2.0943951023931957], at which
    [Math.sin] is [0.8660254037844386] and [Math.cos] is
    [-0.5000000000000002]; [Math.sin(0)] is [0] and [Math.cos(0)] is [1].
    [Math.PI] is [3.141592653589793]. *)
Definition browser : arithmetic :=
  binary64 0x1.921fb54442d18p+1%float
    (tabulated [(0x1.fffffffffffffp-1, 0x1.fffffffffffffp-1)%float])
    (tabulated [(0, 0)%float; (0x1.0c152382d7366p+1, 0x1.bb67ae8584caap-1)%float])
    (tabulated [(0, 1)%float; (0x1.0c152382d7366p+1, -0x1.0000000000002p-1)%float])
    (tabulated [(-0x1p-1, 0x1.0c152382d7366p+1)%float]).

(** The sphere the browser builds for the user of the scenario from these
    draws, at [(12.990381056766578, 0, -7.500000000000003)]. *)
Definition far_x : float := 0x1.9fb1339d2c7dfp+3%float.
Definition far_z : float := (-0x1.e000000000003p+2)%float.

Definition far_node : node :=
  Node 0 0xff0000 (stored (engine := browser) (far_x, 0%float, far_z))
       (user_object {[ "id" := VNum 1; "name" := VStr "A" ]}).

End Doubles.

(** ** The rest of the click handler and of the run *)

(** The pointer in normalized device coordinates, as [onDocumentClick]
    computes it from the position of the click and the size of the window
    (over the real numbers). *)
Definition mouse (clientX clientY innerWidth innerHeight : R) : R * R :=
  ((clientX / innerWidth * 2 - 1)%R, (- (clientY / innerHeight) * 2 + 1)%R).

(** The nodes hit by the clicks of a run, in order. *)
Definition clicked_nodes (evs : list event) : list node :=
  omap (fun e => match e with Click hit => hit | RelFetched _ _ => None end) evs.

(** The two [forEach] loops of [createGraph]. *)
Definition loops `{engine : arithmetic} (random : nat -> num)
    (users groups : value) : M unit :=
  forEach users (add_sphere random "user" user_data) ;;
  forEach groups (add_sphere random "group" group_data).

(** A group whose record carries the [user_id] of its owner. *)
Definition owned_group : object := {[ "id" := VNum 3; "user_id" := VNum 9 ]}.

Definition owned_group_node : node :=
  Node 0 0x0000ff (place no_jitter 0) (group_object owned_group).

(** A user record with a field of its own named [type]. *)
Definition typed_user : object :=
  {[ "id" := VNum 1; "type" := VStr "admin"; "followers" := VNum 12 ]}.

(** An error body, as an API answers a request it refuses. *)
Definition error_body : object := {[ "detail" := VStr "Invalid token" ]}.

(** A relationship list whose second entry is [null]. *)
Definition list_with_null : fetch_outcome :=
  Response 200
    (Some (VObj (<["relationships" :=
                     VArr ((VObj <$> [ ({[ "user_id" := VNum 1 ]} : object) ])
                           ++ VNull :: [])]> ∅))).

(** The camera of the page: [new THREE.PerspectiveCamera(75, aspect, 0.1, 1000)]
    placed at [z = 25], looking down the [z] axis.  [camera_depth p] is how
    far in front of the camera the point [p] lies. *)
Definition camera_z : R := 25%R.
Definition camera_near : R := (1 / 10)%R.
Definition camera_far : R := 1000%R.

Definition camera_depth (p : vec3) : R := (camera_z - p.2)%R.

(** * Properties *)

(** ** The scene keeps the spheres first and the lines of [lines] after them *)

(** Unfolds the plumbing of [M] and the setters of [world]. *)
Ltac js_unfold :=
  unfold bind, ret, throw, lift, modify, try_catch, console_put, new_object3d,
    scene_add, scene_remove, send, updateNodeInfoDisplay,
    set_nodes, set_lines, set_selectedNode, set_scene, set_node_info,
    set_console, set_requests, set_in_flight, set_uncaught, set_next_id,
    set_rng_calls in *;
  cbn [nodes lines selectedNode scene node_info console requests in_flight
       uncaught next_id rng_calls fst snd] in *.

(** Closes an equation between two results whose worlds differ in the way
    their counters are written. *)
Ltac same_counters :=
  match goal with
  | |- (_, World _ _ _ _ _ _ _ _ _ ?a ?b) = (_, World _ _ _ _ _ _ _ _ _ ?a' ?b') =>
      replace a with a' by lia; replace b with b' by lia; reflexivity
  end.

(** The properties of this part hold whatever engine runs the script. *)
Section AnyEngine.

Context `{engine : arithmetic}.

Lemma world_eta (w : world) :
  World (nodes w) (lines w) (selectedNode w) (scene w) (node_info w) (console w)
        (requests w) (in_flight w) (uncaught w) (next_id w) (rng_calls w) = w.
Proof. by destruct w. Qed.

Lemma drawn_edges_tidy w : tidy w -> drawn_edges w = lines w.
Proof.
  intros [Hs _]. unfold drawn_edges. rewrite Hs, omap_app.
  assert (Hm : forall ms : list node,
             omap (fun c => match c with Line l => Some l | Mesh _ => None end)
                  (Mesh <$> ms) = []).
  { induction ms as [|m ms IH]; [done | apply IH]. }
  rewrite Hm. simpl. clear Hs Hm.
  induction (lines w) as [|l ls IH]; [done|]. simpl. by f_equal.
Qed.

Lemma remove_child_spheres i (ms : list node) (rest : list object3d) :
  Forall (fun m => node_id m <> i) ms ->
  remove_child i ((Mesh <$> ms) ++ rest) = (Mesh <$> ms) ++ remove_child i rest.
Proof.
  induction 1 as [|m ms Hm _ IH]; [done|].
  rewrite fmap_cons. cbn [app remove_child object_id].
  rewrite decide_False by done. by rewrite IH.
Qed.

Lemma for_each_scene_remove (ls : list line) (w : world) :
  for_each (fun l => scene_remove (line_id l)) ls w =
  (Return tt, set_scene (foldl (fun sc l => remove_child (line_id l) sc) (scene w) ls) w).
Proof.
  revert w. induction ls as [|l ls IH]; intros w.
  - simpl. unfold ret, set_scene. by rewrite world_eta.
  - simpl. unfold bind, scene_remove, modify. rewrite IH. by destruct w.
Qed.

Lemma remove_lines bound (ms : list node) (ls : list line) :
  Forall (fun m => node_id m < bound) ms ->
  Forall (fun l => bound <= line_id l) ls ->
  foldl (fun sc l => remove_child (line_id l) sc) ((Mesh <$> ms) ++ (Line <$> ls)) ls
  = Mesh <$> ms.
Proof.
  intros Hms. induction 1 as [|l ls Hl _ IH].
  - simpl. by rewrite app_nil_r.
  - rewrite fmap_cons. cbn [foldl]. rewrite remove_child_spheres.
    + cbn [remove_child object_id]. rewrite decide_True by done. apply IH.
    + eapply Forall_impl; [exact Hms|]. simpl. lia.
Qed.

(** [clearConnections] on a tidy world leaves the spheres and nothing else. *)
Lemma clearConnections_tidy w :
  tidy w ->
  clearConnections w = (Return tt, set_lines [] (set_scene (Mesh <$> nodes w) w)).
Proof.
  intros [Hs (b & Hm & Hl & _)].
  unfold clearConnections, bind. rewrite for_each_scene_remove.
  rewrite Hs, (remove_lines b) by done. done.
Qed.

(** ** The resolver, step by step *)

Lemma logFetch_eq u o w :
  logFetch u o w = (Return (received o), set_console (console w ++ [fetch_log u o]) w).
Proof. by destruct o as [|st [data|]]. Qed.

Lemma connect_eq n rel w :
  connect n rel w =
  match find (node_matches rel) (nodes w) with
  | Return (Some t) => (Return tt, draw [Line3 (next_id w) (edge n t)] [] w)
  | Return None => (Return tt, draw [] [WarnNoTarget rel] w)
  | Throw e => (Throw e, w)
  end.
Proof.
  unfold connect, bind, lift.
  destruct (find (node_matches rel) (nodes w)) as [[t|]|e]; [| |done].
  - unfold draw, edge. js_unfold. simpl. by rewrite app_nil_r, Nat.add_1_r.
  - unfold draw. js_unfold. simpl. by rewrite !app_nil_r, Nat.add_0_r.
Qed.

Lemma draw_draw ls1 ms1 ls2 ms2 w :
  draw ls2 ms2 (draw ls1 ms1 w) = draw (ls1 ++ ls2) (ms1 ++ ms2) w.
Proof.
  unfold draw. simpl. rewrite fmap_app, length_app, !app_assoc. f_equal. lia.
Qed.

Lemma draw_nothing w : draw [] [] w = w.
Proof.
  unfold draw. simpl. rewrite !app_nil_r, Nat.add_0_r. apply world_eta.
Qed.

Lemma new_lines_cons id0 n t ts :
  new_lines id0 n (t :: ts) = Line3 id0 (edge n t) :: new_lines (S id0) n ts.
Proof.
  unfold new_lines. rewrite imap_cons. f_equal; [by rewrite Nat.add_0_r|].
  apply imap_ext. intros i x _. simpl. f_equal. lia.
Qed.

Lemma get_prop_throws v k e : get_prop v k = Throw e -> e = TypeError.
Proof. destruct v; simpl; congruence. Qed.

Lemma node_matches_throws rel n e : node_matches rel n = Throw e -> e = TypeError.
Proof.
  unfold node_matches, field_matches, and_then. intros H.
  repeat case_match; simplify_eq; eauto using get_prop_throws.
Qed.

Lemma find_throws rel ns e : find (node_matches rel) ns = Throw e -> e = TypeError.
Proof.
  induction ns as [|m ms IH]; simpl; [done|].
  destruct (node_matches rel m) as [[|]|e'] eqn:Hm; intros H; simplify_eq; auto.
  eauto using node_matches_throws.
Qed.

(** The [forEach] of [displayNodeInfo]: a line per target, a warning per
    entry without one, and a [TypeError] (the only error the predicate can
    raise) if an entry makes the predicate throw. *)
Lemma connect_all n rels w :
  for_each (connect n) rels w =
  (if resolve_throws (nodes w) rels then Throw TypeError else Return tt,
   draw (new_lines (next_id w) n (targets (nodes w) rels))
        (WarnNoTarget <$> unresolved (nodes w) rels) w).
Proof.
  revert w. induction rels as [|rel rels IH]; intros w.
  - simpl. by rewrite draw_nothing.
  - cbn [for_each targets unresolved resolve_throws]. unfold bind at 1.
    rewrite connect_eq.
    destruct (find (node_matches rel) (nodes w)) as [[t|]|e] eqn:Hf.
    + rewrite IH, draw_draw. cbn [draw nodes next_id length].
      by rewrite new_lines_cons, Nat.add_1_r.
    + rewrite IH, draw_draw. cbn [draw nodes next_id length].
      by rewrite Nat.add_0_r.
    + rewrite draw_nothing. by rewrite (find_throws _ _ _ Hf).
Qed.

Lemma resume_eq n o w :
  displayNodeInfo_resume n o w =
  (if resolution_throws (nodes w) o then Throw TypeError else Return tt,
   resumed n o w).
Proof.
  unfold displayNodeInfo_resume, resumed, resolution_throws, entries, relationships_of.
  unfold bind at 1. rewrite logFetch_eq.
  set (msg := fetch_log (relationships_url n) o).
  set (w1 := set_console (console w ++ [msg]) w).
  assert (Hw1 : forall ls ms, draw ls ms w1 = draw ls (msg :: ms) w).
  { intros. unfold w1, draw, set_console. simpl. by rewrite <- app_assoc. }
  assert (Hn : nodes w1 = nodes w) by done.
  assert (Hi : next_id w1 = next_id w) by done.
  assert (Harr : forall rels,
    (forEach (VArr rels) (connect n);; updateNodeInfoDisplay (userData n)) w1 =
    (if resolve_throws (nodes w) rels then Throw TypeError else Return tt,
     if resolve_throws (nodes w) rels
     then draw (new_lines (next_id w) n (targets (nodes w) rels))
               (msg :: (WarnNoTarget <$> unresolved (nodes w) rels)) w
     else set_node_info (Some (info_rows (userData n)))
            (draw (new_lines (next_id w) n (targets (nodes w) rels))
               (msg :: (WarnNoTarget <$> unresolved (nodes w) rels)) w))).
  { intros rels. unfold bind, forEach. rewrite connect_all, Hn, Hi, Hw1.
    by destruct (resolve_throws (nodes w) rels). }
  assert (Hbad : forall v, match v with VArr _ => False | _ => True end ->
    (forEach v (connect n);; updateNodeInfoDisplay (userData n)) w1 =
    (Throw TypeError, draw [] [msg] w)).
  { intros v Hv. rewrite <- Hw1, draw_nothing. by destruct v. }
  destruct (truthy (received o)) eqn:Ht.
  - destruct (received o) as [| |b|z|s|l|obj] eqn:Hr; try done;
      unfold bind at 1; unfold lift;
      cbn [get_prop new_lines targets unresolved imap fmap list_fmap];
      try (rewrite (Hbad VUndef) by done; reflexivity).
    + destruct (decide ("relationships" = "length")); [done|].
      rewrite (Hbad VUndef) by done; reflexivity.
    + destruct (decide ("relationships" = "length")); [done|].
      rewrite (Hbad VUndef) by done; reflexivity.
    + destruct (get obj "relationships") as [| |b|z|s|l|obj'] eqn:Hg;
        try (rewrite Hbad by done; reflexivity).
      apply (Harr l).
  - unfold bind at 1, ret. apply (Harr []).
Qed.

Lemma step_fetched k o n w :
  in_flight w !! k = Some n ->
  step w (RelFetched k o) =
  let w0 := set_in_flight (delete k (in_flight w)) w in
  if resolution_throws (nodes w) o
  then set_uncaught (uncaught (resumed n o w0) ++ [TypeError]) (resumed n o w0)
  else resumed n o w0.
Proof.
  intros Hk. unfold step. rewrite Hk, resume_eq. cbn [nodes set_in_flight].
  by destruct (resolution_throws (nodes w) o).
Qed.

(** ** The click handler, step by step *)

Lemma tidy_ext w w' :
  nodes w' = nodes w -> lines w' = lines w -> scene w' = scene w ->
  next_id w' = next_id w -> tidy w -> tidy w'.
Proof. unfold tidy. by intros -> -> -> ->. Qed.

Lemma tidy_no_lines w :
  tidy w -> tidy (set_lines [] (set_scene (Mesh <$> nodes w) w)).
Proof.
  intros [_ (b & Hm & _ & Hb)]. split; simpl; [by rewrite app_nil_r|].
  exists b. by repeat split.
Qed.

Lemma tidy_unselected w : tidy w -> tidy (unselected w).
Proof.
  intros H. unfold unselected. destruct (selectedNode w); [|done].
  eapply tidy_ext; [..|exact (tidy_no_lines w H)]; done.
Qed.

Lemma tidy_clicked n w : tidy w -> tidy (clicked n w).
Proof.
  intros H. eapply tidy_ext; [..|exact (tidy_no_lines w H)]; done.
Qed.

Lemma tidy_draw n ts msgs w :
  tidy w -> tidy (draw (new_lines (next_id w) n ts) msgs w).
Proof.
  intros [Hs (b & Hm & Hl & Hb)]. split; simpl.
  - by rewrite Hs, fmap_app, app_assoc.
  - exists b. repeat split; [done| |lia].
    apply Forall_app. split; [done|].
    apply Forall_forall. intros l Hin.
    apply list_elem_of_lookup in Hin as [i Hi].
    unfold new_lines in Hi. rewrite list_lookup_imap in Hi.
    destruct (ts !! i); simplify_eq/=. lia.
Qed.

Lemma tidy_resumed n o w : tidy w -> tidy (resumed n o w).
Proof.
  intros H. unfold resumed.
  destruct (resolution_throws (nodes w) o); [by apply tidy_draw|].
  eapply tidy_ext; [..|eapply (tidy_draw n); exact H]; done.
Qed.

Lemma clearSelection_tidy w :
  tidy w -> clearSelection w = (Return tt, unselected w).
Proof.
  intros H. unfold clearSelection, unselected.
  destruct (selectedNode w) as [m|]; [|done].
  unfold bind at 1. unfold modify at 1. unfold bind at 1.
  rewrite clearConnections_tidy.
  - by js_unfold.
  - eapply tidy_ext; [..|exact H]; done.
Qed.

Lemma displayNodeInfo_call_tidy n w :
  tidy w ->
  displayNodeInfo_call n w =
  (Return tt,
   World (nodes w) [] (selectedNode w) (Mesh <$> nodes w) (node_info w) (console w)
         (requests w ++ [relationships_url n]) (in_flight w ++ [n]) (uncaught w)
         (next_id w) (rng_calls w)).
Proof.
  intros H. unfold displayNodeInfo_call. unfold bind at 1.
  rewrite clearConnections_tidy by done. by js_unfold.
Qed.

Lemma step_click_none w : tidy w -> step w (Click None) = unselected w.
Proof. intros H. simpl. by rewrite clearSelection_tidy. Qed.

Lemma step_click_some n w : tidy w -> step w (Click (Some n)) = clicked n w.
Proof.
  intros H. simpl. unfold bind at 1. rewrite clearSelection_tidy by done.
  unfold bind at 1. unfold modify at 1.
  rewrite displayNodeInfo_call_tidy.
  - unfold clicked, unselected. by destruct (selectedNode w).
  - eapply tidy_ext; [..|exact (tidy_unselected w H)]; done.
Qed.

Lemma tidy_step w e : tidy w -> tidy (step w e).
Proof.
  intros H. destruct e as [[n|]|k o].
  - rewrite step_click_some by done. by apply tidy_clicked.
  - rewrite step_click_none by done. by apply tidy_unselected.
  - destruct (in_flight w !! k) as [n|] eqn:Hk; [|by simpl; rewrite Hk].
    rewrite (step_fetched _ _ _ _ Hk). cbn zeta.
    assert (H0 : tidy (set_in_flight (delete k (in_flight w)) w))
      by (eapply tidy_ext; [..|exact H]; done).
    destruct (resolution_throws (nodes w) o).
    + eapply tidy_ext; [..|exact (tidy_resumed n o _ H0)]; done.
    + by apply tidy_resumed.
Qed.

Lemma tidy_run evs w : tidy w -> tidy (run w evs).
Proof.
  revert w. induction evs as [|e evs IH]; intros w H; [done|].
  apply IH. by apply tidy_step.
Qed.

Lemma nodes_step w e : tidy w -> nodes (step w e) = nodes w.
Proof.
  intros H. destruct e as [[n|]|k o].
  - by rewrite step_click_some.
  - rewrite step_click_none by done. unfold unselected. by destruct (selectedNode w).
  - destruct (in_flight w !! k) as [n|] eqn:Hk; [|by simpl; rewrite Hk].
    rewrite (step_fetched _ _ _ _ Hk). cbn zeta. unfold resumed.
    by repeat case_match.
Qed.

(** ** The graph builder, step by step *)

Lemma user_data_object (u : object) : user_data (VObj u) = Return (user_object u).
Proof.
  unfold user_data, user_object, js_or, and_then. simpl.
  by destruct (truthy (get u "user_id")).
Qed.

Lemma group_data_object (g : object) : group_data (VObj g) = Return (group_object g).
Proof.
  unfold group_data, group_object, js_or, and_then. simpl.
  by destruct (truthy (get g "group_id")).
Qed.

Lemma user_data_throws r e : user_data r = Throw e -> e = TypeError.
Proof.
  unfold user_data, and_then. intros H.
  repeat case_match; simplify_eq; eauto using get_prop_throws.
Qed.

Lemma group_data_throws r e : group_data r = Throw e -> e = TypeError.
Proof.
  unfold group_data, and_then. intros H.
  repeat case_match; simplify_eq; eauto using get_prop_throws.
Qed.

Section GraphLemmas.

Variable random : nat -> num.
Variable kind : string.
Variable data_of : value -> completion object.
Hypothesis data_of_throws : forall r e, data_of r = Throw e -> e = TypeError.

Lemma add_sphere_eq r w :
  add_sphere random kind data_of r w =
  match data_of r with
  | Return d =>
      let sphere := Node (next_id w) (nodeColors kind) (place random (rng_calls w)) d in
      (Return tt,
       World (nodes w ++ [sphere]) (lines w) (selectedNode w) (scene w ++ [Mesh sphere])
             (node_info w) (console w) (requests w) (in_flight w) (uncaught w)
             (S (next_id w)) (S (S (S (rng_calls w)))))
  | Throw e =>
      (Throw e,
       World (nodes w) (lines w) (selectedNode w) (scene w)
             (node_info w) (console w) (requests w) (in_flight w) (uncaught w)
             (S (next_id w)) (S (S (S (rng_calls w)))))
  end.
Proof.
  unfold add_sphere, Math_random. js_unfold.
  by destruct (data_of r).
Qed.

Lemma spheres_cons id0 rng0 d ds :
  spheres random kind id0 rng0 (d :: ds) =
  Node id0 (nodeColors kind) (place random rng0) d
  :: spheres random kind (S id0) (S (S (S rng0))) ds.
Proof.
  unfold spheres. rewrite imap_cons. f_equal.
  - by rewrite Nat.add_0_r, Nat.mul_0_r, Nat.add_0_r.
  - apply imap_ext. intros i x _. cbn [compose].
    replace (id0 + S i) with (S id0 + i) by lia.
    by replace (rng0 + 3 * S i) with (S (S (S rng0)) + 3 * i) by lia.
Qed.

Lemma length_spheres id0 rng0 ds :
  length (spheres random kind id0 rng0 ds) = length ds.
Proof. apply length_imap. Qed.

(** One [forEach] of [createGraph]. *)
Lemma add_all l w :
  for_each (add_sphere random kind data_of) l w =
  (if all_ok data_of l then Return tt else Throw TypeError,
   build random kind data_of l w).
Proof using data_of_throws.
  revert w. induction l as [|r l IH]; intros w.
  - unfold build. simpl. rewrite !app_nil_r, !Nat.add_0_r.
    by rewrite world_eta.
  - cbn [for_each]. unfold bind at 1. rewrite add_sphere_eq.
    unfold build. cbn [datas all_ok].
    destruct (data_of r) as [d|e] eqn:Hd.
    + cbn zeta. rewrite IH. unfold build.
      cbn [nodes lines selectedNode scene node_info console requests
           in_flight uncaught next_id rng_calls].
      rewrite spheres_cons, fmap_cons, <- !app_assoc.
      cbn [app length]. rewrite !length_spheres. same_counters.
    + rewrite (data_of_throws _ _ Hd). simpl.
      rewrite !app_nil_r. same_counters.
Qed.

End GraphLemmas.

Lemma fetchNodes_eq uo go w :
  fetchNodes uo go w = (Return (collection uo, collection go), after_fetchNodes uo go w).
Proof.
  unfold fetchNodes. unfold bind at 1. unfold send at 1. unfold modify at 1.
  unfold bind at 1. unfold send at 1. unfold modify at 1.
  unfold bind at 1. rewrite logFetch_eq. unfold bind at 1. rewrite logFetch_eq.
  unfold ret, after_fetchNodes, collection. js_unfold.
  by rewrite <- !app_assoc.
Qed.

Lemma grown_refl w : grown [] w w.
Proof. unfold grown. rewrite !app_nil_r. repeat split; auto. Qed.

Lemma grown_trans n1 n2 w w1 w2 :
  grown n1 w w1 -> grown n2 w1 w2 -> grown (n1 ++ n2) w w2.
Proof.
  intros (Hn1 & Hs1 & Hl1 & Hse1 & Hi1 & Hf1 & Hle1 & Hb1)
         (Hn2 & Hs2 & Hl2 & Hse2 & Hi2 & Hf2 & Hle2 & Hb2).
  unfold grown. rewrite Hn2, Hn1, Hs2, Hs1, fmap_app, !app_assoc.
  repeat split; try congruence; [lia|].
  apply Forall_app. split; (eapply Forall_impl; [eassumption|]); simpl; lia.
Qed.

Lemma grown_ext new w w1 w2 :
  nodes w2 = nodes w1 -> scene w2 = scene w1 -> lines w2 = lines w1 ->
  selectedNode w2 = selectedNode w1 -> node_info w2 = node_info w1 ->
  in_flight w2 = in_flight w1 -> next_id w2 = next_id w1 ->
  grown new w w1 -> grown new w w2.
Proof. unfold grown. by intros -> -> -> -> -> -> ->. Qed.

Lemma grown_build random kind data_of l w :
  grown (spheres random kind (next_id w) (rng_calls w) (datas data_of l)) w
        (build random kind data_of l w).
Proof.
  unfold grown, build. simpl. repeat split; [lia|].
  apply Forall_forall. intros m Hm.
  apply list_elem_of_lookup in Hm as [i Hi].
  pose proof (lookup_lt_Some _ _ _ Hi) as Hlt. rewrite length_spheres in Hlt.
  unfold spheres in Hi. rewrite list_lookup_imap in Hi.
  destruct (datas data_of l !! i); simplify_eq/=.
  rewrite length_spheres. lia.
Qed.

Lemma forEach_add random kind data_of v w :
  (forall r e, data_of r = Throw e -> e = TypeError) ->
  forEach v (add_sphere random kind data_of) w =
  (if is_array v && all_ok data_of (records v) then Return tt else Throw TypeError,
   build random kind data_of (records v) w).
Proof.
  intros H.
  assert (Hnil : build random kind data_of [] w = w).
  { unfold build. simpl. rewrite !app_nil_r, !Nat.add_0_r. apply world_eta. }
  destruct v; simpl; rewrite ?Hnil; try done.
  by apply add_all.
Qed.

Lemma build_nil random kind data_of w : build random kind data_of [] w = w.
Proof. unfold build. simpl. rewrite !app_nil_r, !Nat.add_0_r. apply world_eta. Qed.

Lemma graph_nodes_loops random users groups w :
  grown (graph_nodes random (next_id w) (rng_calls w) users groups) w
    ((forEach users (add_sphere random "user" user_data) ;;
      forEach groups (add_sphere random "group" group_data)) w).2.
Proof.
  unfold bind, graph_nodes.
  rewrite forEach_add by apply user_data_throws.
  pose proof (grown_build random "user" user_data (records users) w) as H1.
  destruct (is_array users && all_ok user_data (records users)) eqn:Hok.
  - rewrite forEach_add by apply group_data_throws.
    eapply grown_trans; [exact H1|].
    pose proof (grown_build random "group" group_data (records groups)
                  (build random "user" user_data (records users) w)) as H2.
    apply andb_prop in Hok as [_ Hok].
    unfold build at 1 2 in H2. cbn [next_id rng_calls] in H2.
    rewrite Hok, length_spheres, !Nat.add_0_r in H2.
    by destruct (is_array groups && all_ok group_data (records groups)).
  - rewrite app_nil_r. exact H1.
Qed.

Lemma graph_nodes_none random id0 rng0 users groups :
  records users = [] -> is_array users = false \/ records groups = [] ->
  graph_nodes random id0 rng0 users groups = [].
Proof.
  unfold graph_nodes. intros -> [->| ->]; [done|]. simpl. by case_match.
Qed.

Lemma length_zero_records v :
  (exists n, get_prop v "length" = Return n /\ strict_eq n (VNum 0) = true) ->
  records v = [].
Proof.
  intros (n & Hn & H0). destruct v as [| |b|z|s|l|obj]; try done.
  simpl in Hn. simplify_eq. simpl in H0.
  destruct l; [done|]. by simpl in H0.
Qed.

(** [createGraph] registers [graph_nodes], whatever the two requests
    brought back, and touches nothing of the selection. *)
Lemma createGraph_grown random uo go w :
  grown (graph_nodes random (next_id w) (rng_calls w) (collection uo) (collection go))
        w (createGraph random uo go w).2.
Proof.
  unfold createGraph. unfold bind at 1. rewrite fetchNodes_eq. cbn [fst snd].
  set (users := collection uo). set (groups := collection go).
  set (w1 := after_fetchNodes uo go w).
  assert (Hw1 : forall new w', grown new w1 w' -> grown new w w').
  { unfold grown, w1. simpl. done. }
  assert (Hnone : forall w', nodes w' = nodes w1 -> scene w' = scene w1 ->
            lines w' = lines w1 -> selectedNode w' = selectedNode w1 ->
            node_info w' = node_info w1 -> in_flight w' = in_flight w1 ->
            next_id w' = next_id w1 ->
            grown [] w w').
  { intros. apply Hw1. eapply grown_ext; [..|apply grown_refl]; done. }
  unfold bind at 1. unfold lift at 1.
  destruct (get_prop users "length") as [ulen|e] eqn:Hul.
  - destruct (strict_eq ulen (VNum 0)) eqn:Hu0.
    + unfold bind at 1. unfold lift at 1.
      destruct (get_prop groups "length") as [glen|e] eqn:Hgl.
      * destruct (strict_eq glen (VNum 0)) eqn:Hg0; cbn [andb].
        -- rewrite graph_nodes_none; [by apply Hnone| |right];
             apply length_zero_records; eauto.
        -- apply Hw1. apply (graph_nodes_loops random users groups w1).
      * rewrite graph_nodes_none; [by apply Hnone| |right].
        -- apply length_zero_records; eauto.
        -- by destruct groups.
    + unfold bind at 1. unfold ret at 1. cbn [andb].
      apply Hw1. apply (graph_nodes_loops random users groups w1).
  - rewrite graph_nodes_none; [by apply Hnone| |left]; by destruct users.
Qed.

(** ** The world after loading *)

Lemma loaded_grown random uo go :
  grown (graph_nodes random 0 0 (collection uo) (collection go)) boot
        (loaded random uo go).
Proof.
  pose proof (createGraph_grown random uo go boot) as H. unfold loaded.
  destruct (createGraph random uo go boot) as [[[]|e] w]; [exact H|].
  eapply grown_ext; [..|exact H]; done.
Qed.

Lemma nodes_loaded random uo go :
  nodes (loaded random uo go) = user_spheres random uo ++ group_spheres random uo go.
Proof. by destruct (loaded_grown random uo go) as (-> & _). Qed.

Lemma tidy_loaded random uo go : tidy (loaded random uo go).
Proof.
  destruct (loaded_grown random uo go) as (Hn & Hs & Hl & _ & _ & _ & _ & Hb).
  split.
  - rewrite Hs, Hl, Hn. simpl. by rewrite app_nil_r.
  - exists (next_id (loaded random uo go)). rewrite Hn, Hl. simpl.
    repeat split; [|constructor|lia].
    eapply Forall_impl; [exact Hb|]. simpl. lia.
Qed.

Lemma idle_loaded random uo go :
  let w := loaded random uo go in
  selectedNode w = None /\ node_info w = None /\ in_flight w = [] /\ lines w = [].
Proof.
  destruct (loaded_grown random uo go) as (_ & _ & Hl & Hs & Hi & Hf & _).
  by cbn zeta.
Qed.

(** ** Runs *)

Lemma run_snoc w evs e : run w (evs ++ [e]) = step (run w evs) e.
Proof. unfold run. by rewrite foldl_snoc. Qed.

Lemma nodes_run evs w : tidy w -> nodes (run w evs) = nodes w.
Proof.
  revert w. induction evs as [|e evs IH]; intros w H; [done|].
  simpl. rewrite IH by (by apply tidy_step). by apply nodes_step.
Qed.

Lemma well_paced_snoc evs e w :
  well_paced w (evs ++ [e]) = well_paced w evs && enabled (run w evs) e.
Proof.
  revert w. induction evs as [|e' evs IH]; intros w; simpl.
  - by rewrite andb_true_r.
  - by rewrite IH, andb_assoc.
Qed.

Lemma last_fetched_snoc evs e :
  last_fetched (evs ++ [e]) =
  match e with
  | RelFetched _ o => Some o
  | Click _ => last_fetched evs
  end.
Proof.
  induction evs as [|e' evs IH]; simpl.
  - by destruct e.
  - rewrite IH. destruct e; [|done]. by destruct (last_fetched evs).
Qed.

Lemma points_new_lines id0 n ts : points <$> new_lines id0 n ts = edge n <$> ts.
Proof.
  unfold new_lines. revert id0. induction ts as [|t ts IH]; intros id0; [done|].
  rewrite imap_cons, !fmap_cons. f_equal.
  rewrite <- (IH (S id0)). f_equal. apply imap_ext. intros i x _. simpl.
  by replace (id0 + S i) with (S id0 + i) by lia.
Qed.

Lemma length_new_lines id0 n ts : length (new_lines id0 n ts) = length ts.
Proof. apply length_imap. Qed.

(** A click on [n] and the answer to its request, from a tidy world in
    which other requests may still be in flight. *)
Lemma select_and_resolve n o w :
  tidy w ->
  run w [Click (Some n); RelFetched (length (in_flight w)) o] = resolved_selection n o w.
Proof.
  intros H. unfold run. cbn [foldl]. rewrite step_click_some by done.
  assert (Hk : in_flight (clicked n w) !! length (in_flight w) = Some n).
  { simpl. by rewrite list_lookup_middle. }
  rewrite (step_fetched _ _ _ _ Hk). cbn zeta.
  assert (Hd : delete (length (in_flight w)) (in_flight (clicked n w)) = in_flight w).
  { cbn [in_flight clicked]. by rewrite delete_middle, app_nil_r. }
  rewrite Hd. unfold resumed, resolved_selection.
  cbn [nodes clicked set_in_flight next_id].
  destruct (resolution_throws (nodes w) o); unfold draw; js_unfold;
    rewrite ?app_nil_r; done.
Qed.

Lemma tidy_resolved_selection n o w : tidy w -> tidy (resolved_selection n o w).
Proof.
  intros H. rewrite <- select_and_resolve by done. by apply tidy_run.
Qed.

(** ** The selection state *)

Lemma paced_invariant_step evs e w :
  paced_invariant evs w -> enabled w e = true ->
  paced_invariant (evs ++ [e]) (step w e).
Proof.
  intros [Ht Hsel] Hen. split; [by apply tidy_step|].
  destruct e as [[n|]|k o].
  - rewrite step_click_some by done. simpl in *. left.
    by destruct (in_flight w).
  - rewrite step_click_none by done. unfold unselected. simpl in Hen.
    destruct (selectedNode w) as [m|] eqn:Hm.
    + simpl. by destruct (in_flight w).
    + rewrite Hm. exact Hsel.
  - simpl in Hen. apply bool_decide_eq_true in Hen.
    destruct (selectedNode w) as [n|] eqn:Hn.
    + destruct Hsel as [[Hf Hl]|[Hf _]]; [|rewrite Hf in Hen; simpl in Hen; lia].
      assert (k = 0) as -> by (rewrite Hf in Hen; simpl in Hen; lia).
      assert (Hk : in_flight w !! 0 = Some n) by (by rewrite Hf).
      rewrite (step_fetched _ _ _ _ Hk), Hf. cbn zeta. cbn [delete list_delete].
      assert (Hr : let w' := resumed n o (set_in_flight [] w) in
                   selectedNode w' = Some n /\ in_flight w' = [] /\
                   nodes w' = nodes w /\
                   points <$> lines w' = resolution (nodes w) n o).
      { unfold resumed. cbn [nodes next_id set_in_flight].
        assert (Hp : points <$> lines w ++ new_lines (next_id w) n
                        (targets (nodes w) (entries o)) = resolution (nodes w) n o).
        { by rewrite Hl, app_nil_l, points_new_lines. }
        destruct (resolution_throws (nodes w) o); simpl; by rewrite Hn. }
      cbn zeta in Hr. destruct Hr as (Hs' & Hf' & Hn' & Hp').
      assert (Hgoal : forall w', selectedNode w' = Some n -> in_flight w' = [] ->
                nodes w' = nodes w -> lines w' = lines (resumed n o (set_in_flight [] w)) ->
                match selectedNode w' with
                | None => lines w' = [] /\ node_info w' = None /\ in_flight w' = []
                | Some n0 =>
                    (in_flight w' = [n0] /\ lines w' = []) \/
                    (in_flight w' = [] /\
                     exists o0, last_fetched (evs ++ [RelFetched 0 o]) = Some o0 /\
                       points <$> lines w' = resolution (nodes w') n0 o0)
                end).
      { intros w' -> Hf2 Hn2 Hl2. right. split; [done|]. exists o.
        rewrite last_fetched_snoc, Hl2, Hn2. done. }
      destruct (resolution_throws (nodes w) o); by apply Hgoal.
    + destruct Hsel as (_ & _ & Hf). rewrite Hf in Hen. simpl in Hen. lia.
Qed.

Lemma paced_invariant_run w evs :
  paced_invariant [] w -> well_paced w evs = true -> paced_invariant evs (run w evs).
Proof.
  intros H0. induction evs as [|e evs IH] using rev_ind; [done|].
  rewrite well_paced_snoc, run_snoc. intros [Hp He]%andb_prop.
  apply paced_invariant_step; auto.
Qed.

Lemma paced_invariant_loaded random uo go : paced_invariant [] (loaded random uo go).
Proof.
  split; [apply tidy_loaded|].
  destruct (idle_loaded random uo go) as (-> & Hi & Hf & Hl). done.
Qed.

(** [C1], as amended.  In a run where no click arrives while a
    relationships request is in flight, at every point: if no node is
    selected, no relationship edge is drawn and the information panel does
    not exist; if a node is selected, either its request is in flight and no
    edge is drawn, or no request is in flight and the drawn edges are
    exactly those of the last resolution, which is the resolution of that
    node: no edge of a previous selection remains. *)
Theorem selection_invariant_paced random uo go evs :
  well_paced (loaded random uo go) evs = true ->
  selection_invariant evs (run (loaded random uo go) evs).
Proof.
  intros Hp.
  destruct (paced_invariant_run _ evs (paced_invariant_loaded random uo go) Hp)
    as [Ht Hsel].
  unfold selection_invariant. rewrite (drawn_edges_tidy _ Ht).
  destruct (selectedNode (run (loaded random uo go) evs)) as [n|].
  - destruct Hsel as [[Hf Hl]|[Hf Ho]]; [by left|by right].
  - by destruct Hsel as (-> & -> & _).
Qed.

(** ** The resolver on entries that are JSON objects *)

Lemma truthy_eq_carries (rel : object) k v :
  truthy v = true -> strict_eq v (get rel k) = true -> carries rel k = true.
Proof.
  unfold carries, get. destruct (rel !! k); [done|]. simpl.
  by destruct v.
Qed.

Lemma node_matches_object (rel : object) n :
  node_matches (VObj rel) n = Return (refers_to_truthy rel n).
Proof.
  unfold node_matches, field_matches, refers_to_truthy, and_then. cbn [get_prop].
  destruct (truthy (get (userData n) "user_id")) eqn:Hu;
    destruct (strict_eq (get (userData n) "user_id") (get rel "user_id")) eqn:Heu;
    rewrite ?(truthy_eq_carries rel "user_id" _ Hu Heu),
      ?andb_false_r, ?andb_true_r; cbn [andb orb]; try done;
    destruct (truthy (get (userData n) "group_id")) eqn:Hg;
    destruct (strict_eq (get (userData n) "group_id") (get rel "group_id")) eqn:Heg;
    rewrite ?(truthy_eq_carries rel "group_id" _ Hg Heg),
      ?andb_false_r, ?andb_true_r; done.
Qed.

Lemma find_object (rel : object) ns :
  find (node_matches (VObj rel)) ns = Return (first_node (refers_to_truthy rel) ns).
Proof.
  induction ns as [|m ms IH]; [done|].
  simpl. rewrite node_matches_object. by destruct (refers_to_truthy rel m).
Qed.

Lemma first_node_existsb p ns :
  List.existsb p ns = match first_node p ns with Some _ => true | None => false end.
Proof. induction ns as [|m ms IH]; [done|]. simpl. by destruct (p m). Qed.

Lemma targets_objects ns (rels : list object) :
  targets ns (VObj <$> rels) = omap (fun rel => first_node (refers_to_truthy rel) ns) rels.
Proof.
  induction rels as [|rel rels IH]; [done|].
  rewrite fmap_cons. cbn [targets omap list_omap]. rewrite find_object, IH.
  by destruct (first_node (refers_to_truthy rel) ns).
Qed.

Lemma unresolved_objects ns (rels : list object) :
  unresolved ns (VObj <$> rels) =
  VObj <$> List.filter (fun rel => negb (List.existsb (refers_to_truthy rel) ns)) rels.
Proof.
  induction rels as [|rel rels IH]; [done|].
  rewrite fmap_cons. cbn [unresolved List.filter].
  rewrite find_object, IH, first_node_existsb.
  by destruct (first_node (refers_to_truthy rel) ns).
Qed.

Lemma resolve_throws_objects ns (rels : list object) :
  resolve_throws ns (VObj <$> rels) = false.
Proof.
  induction rels as [|rel rels IH]; [done|].
  rewrite fmap_cons. cbn [resolve_throws]. by rewrite find_object.
Qed.

Lemma length_targets_objects ns (rels : list object) :
  length (targets ns (VObj <$> rels)) =
  length (List.filter (fun rel => List.existsb (refers_to_truthy rel) ns) rels).
Proof.
  rewrite targets_objects.
  induction rels as [|rel rels IH]; [done|].
  cbn [omap list_omap List.filter]. rewrite first_node_existsb.
  destruct (first_node (refers_to_truthy rel) ns); simpl; by rewrite IH.
Qed.

Lemma relationships_of_response st extra rels :
  relationships_of (relationships_response st extra rels) = VArr (VObj <$> rels).
Proof.
  unfold relationships_of, relationships_response. simpl.
  unfold get. by rewrite lookup_insert_eq.
Qed.

(** [C2], as amended.  For every selected node and every fetched
    relationship list, resolution goes through the entries in their order
    and picks, for each, the first known node whose [user_id] is truthy and
    equals the [user_id] of the entry, or whose [group_id] is truthy and
    equals the [group_id] of the entry; an entry without such a node is
    skipped with a warning and never drawn, so the number of drawn edges is
    the number of entries that resolve. *)
Theorem resolution_in_order random uo go evs n st extra (rels : list object) :
  let w := run (loaded random uo go) evs in
  let w' := run w [Click (Some n);
                   RelFetched (length (in_flight w)) (relationships_response st extra rels)] in
  points <$> drawn_edges w' = edges_by refers_to_truthy (nodes w) n rels /\
  length (drawn_edges w') =
    length (List.filter (fun rel => List.existsb (refers_to_truthy rel) (nodes w)) rels) /\
  console w' =
    console w ++
    fetch_log (relationships_url n) (relationships_response st extra rels)
    :: (WarnNoTarget <$>
        (VObj <$> List.filter
           (fun rel => negb (List.existsb (refers_to_truthy rel) (nodes w))) rels)) /\
  uncaught w' = uncaught w.
Proof.
  intros w w'.
  assert (Ht : tidy w) by apply tidy_run, tidy_loaded.
  unfold w'. rewrite select_and_resolve by done.
  rewrite (drawn_edges_tidy _ (tidy_resolved_selection _ _ _ Ht)).
  unfold resolved_selection, resolution_throws, entries, edges_by.
  rewrite relationships_of_response, resolve_throws_objects.
  cbn [lines console uncaught].
  rewrite points_new_lines, length_new_lines, length_targets_objects,
    targets_objects, unresolved_objects, app_nil_r.
  done.
Qed.

(** ** A request that yields [null] *)

Lemma null_received o : received o = VNull -> relationships_of o = VArr [].
Proof. unfold relationships_of. by intros ->. Qed.

(** [C4], as amended.  If the relationships request yields [null], which
    it does when the request fails in transport and when its body is not
    valid JSON, whatever the status, then resolution for the selected node
    draws zero edges and raises no error: the panel of the node is shown. *)
Theorem null_relationships_no_edges random uo go evs n o :
  (logFetch (relationships_url n) o (run (loaded random uo go) evs)).1 = Return VNull ->
  let w := run (loaded random uo go) evs in
  let w' := run w [Click (Some n); RelFetched (length (in_flight w)) o] in
  (drawn_edges w' = [] /\
   uncaught w' = uncaught w /\
   selectedNode w' = Some n /\
   node_info w' = Some (info_rows (userData n))) /\
  (forall u w1, (logFetch u NetworkError w1).1 = Return VNull) /\
  (forall u status w1, (logFetch u (Response status None) w1).1 = Return VNull).
Proof.
  intros Hnull w w'. rewrite logFetch_eq in Hnull. simpl in Hnull.
  assert (Hr : received o = VNull) by congruence.
  assert (Ht : tidy w) by apply tidy_run, tidy_loaded.
  split; [|by split].
  unfold w'. rewrite select_and_resolve by done.
  rewrite (drawn_edges_tidy _ (tidy_resolved_selection _ _ _ Ht)).
  unfold resolved_selection, resolution_throws, entries.
  rewrite (null_received _ Hr). simpl. by rewrite app_nil_r.
Qed.

(** ** Selecting the selected node again *)

Lemma failed_resolves ns f : resolution_throws ns (failed f) = false.
Proof. by destruct f. Qed.

Lemma response_resolves ns status extra rels :
  resolution_throws ns (relationships_response status extra rels) = false.
Proof.
  unfold resolution_throws. rewrite relationships_of_response.
  apply resolve_throws_objects.
Qed.


(** ** Collections of JSON objects *)

Lemma all_ok_users (rs : list object) : all_ok user_data (VObj <$> rs) = true.
Proof.
  induction rs as [|r rs IH]; [done|].
  rewrite fmap_cons. cbn [all_ok]. by rewrite user_data_object.
Qed.

Lemma all_ok_groups (rs : list object) : all_ok group_data (VObj <$> rs) = true.
Proof.
  induction rs as [|r rs IH]; [done|].
  rewrite fmap_cons. cbn [all_ok]. by rewrite group_data_object.
Qed.

Lemma datas_users (rs : list object) :
  datas user_data (VObj <$> rs) = user_object <$> rs.
Proof.
  induction rs as [|r rs IH]; [done|].
  rewrite !fmap_cons. cbn [datas]. by rewrite user_data_object, IH.
Qed.

Lemma datas_groups (rs : list object) :
  datas group_data (VObj <$> rs) = group_object <$> rs.
Proof.
  induction rs as [|r rs IH]; [done|].
  rewrite !fmap_cons. cbn [datas]. by rewrite group_data_object, IH.
Qed.

Lemma userData_spheres random kind id0 rng0 ds :
  userData <$> spheres random kind id0 rng0 ds = ds.
Proof.
  revert id0 rng0. induction ds as [|d ds IH]; intros id0 rng0; [done|].
  rewrite spheres_cons, fmap_cons. simpl. by rewrite IH.
Qed.

Lemma collection_failed f : collection (failed f) = VArr [].
Proof. by destruct f. Qed.

Lemma collection_of_response st (rs : list object) :
  collection (collection_response st rs) = VArr (VObj <$> rs).
Proof. done. Qed.

Lemma loops_arrays random ul gl w :
  all_ok user_data ul = true -> all_ok group_data gl = true ->
  (forEach (VArr ul) (add_sphere random "user" user_data) ;;
   forEach (VArr gl) (add_sphere random "group" group_data)) w =
  (Return tt, build random "group" group_data gl (build random "user" user_data ul w)).
Proof.
  intros Hu Hg. unfold bind.
  rewrite forEach_add by apply user_data_throws.
  cbn [is_array records andb]. rewrite Hu. cbv beta iota.
  rewrite forEach_add by apply group_data_throws.
  cbn [is_array records andb]. by rewrite Hg.
Qed.

(** On two arrays whose records all yield their [userData], [createGraph]
    returns normally. *)
Lemma createGraph_arrays random uo go ul gl w :
  collection uo = VArr ul -> collection go = VArr gl ->
  all_ok user_data ul = true -> all_ok group_data gl = true ->
  exists w', createGraph random uo go w = (Return tt, w') /\ uncaught w' = uncaught w.
Proof.
  intros Hu Hg Hul Hgl. unfold createGraph. unfold bind at 1.
  rewrite fetchNodes_eq. cbn [fst snd]. rewrite Hu, Hg.
  unfold bind at 1. unfold lift at 1. cbn [get_prop].
  rewrite decide_True by done.
  destruct (strict_eq (VNum (Z.of_nat (length ul))) (VNum 0)) eqn:Hu0.
  - unfold bind at 1. unfold lift at 1. cbn [get_prop].
    rewrite decide_True by done.
    destruct (strict_eq (VNum (Z.of_nat (length gl))) (VNum 0)) eqn:Hg0; cbn [andb].
    + eexists. split; [reflexivity|done].
    + rewrite loops_arrays by done. eexists. split; [reflexivity|done].
  - unfold bind at 1. unfold ret at 1. cbn [andb].
    rewrite loops_arrays by done. eexists. split; [reflexivity|done].
Qed.

Lemma uncaught_loaded_arrays random uo go ul gl :
  collection uo = VArr ul -> collection go = VArr gl ->
  all_ok user_data ul = true -> all_ok group_data gl = true ->
  uncaught (loaded random uo go) = [].
Proof.
  intros Hu Hg Hul Hgl.
  destruct (createGraph_arrays random uo go ul gl boot Hu Hg Hul Hgl) as (w' & Hw & Hun).
  unfold loaded. by rewrite Hw.
Qed.

Lemma graph_nodes_arrays random id0 rng0 (us gs : list object) :
  userData <$> graph_nodes random id0 rng0 (VArr (VObj <$> us)) (VArr (VObj <$> gs))
  = (user_object <$> us) ++ (group_object <$> gs).
Proof.
  unfold graph_nodes. cbn [records is_array andb].
  rewrite all_ok_users, datas_users, datas_groups, fmap_app.
  by rewrite !userData_spheres.
Qed.

(** ** Loading the two collections *)

(** [C3].  [fetchNodes] never throws.  A collection whose request fails in
    transport or does not parse becomes the empty list, the other
    collection is what its own request yields, and [createGraph] builds
    the graph from the collection that arrived, without an error. *)
Theorem fetchNodes_degrades random (f : failure) (o : fetch_outcome) (w : world)
    (status : Z) (rs : list object) :
  (forall uo go, exists users groups w', fetchNodes uo go w = (Return (users, groups), w')) /\
  (fetchNodes (failed f) o w).1 = Return (VArr [], collection o) /\
  (fetchNodes o (failed f) w).1 = Return (collection o, VArr []) /\
  (let w' := loaded random (failed f) (collection_response status rs) in
   userData <$> nodes w' = group_object <$> rs /\ uncaught w' = []) /\
  (let w' := loaded random (collection_response status rs) (failed f) in
   userData <$> nodes w' = user_object <$> rs /\ uncaught w' = []).
Proof.
  split; [|split; [|split; [|split]]].
  - intros uo go. rewrite fetchNodes_eq. eauto.
  - by rewrite fetchNodes_eq, collection_failed.
  - by rewrite fetchNodes_eq, collection_failed.
  - split.
    + destruct (loaded_grown random (failed f) (collection_response status rs)) as (-> & _).
      rewrite collection_failed, collection_of_response.
      apply (graph_nodes_arrays random 0 0 [] rs).
    + eapply uncaught_loaded_arrays;
        [apply collection_failed|apply collection_of_response|done|apply all_ok_groups].
  - split.
    + destruct (loaded_grown random (collection_response status rs) (failed f)) as (-> & _).
      rewrite collection_failed, collection_of_response.
      etrans; [apply (graph_nodes_arrays random 0 0 rs [])|].
      by rewrite app_nil_r.
    + eapply uncaught_loaded_arrays;
        [apply collection_of_response|apply collection_failed|apply all_ok_users|done].
Qed.

(** [C5].  For all lists of user and group records, [createGraph] appends
    to the registry exactly one node per record, the users in their order,
    then the groups in theirs, and returns normally. *)
Theorem one_node_per_record random st1 st2 (us gs : list object) (w : world) :
  let r := createGraph random (collection_response st1 us) (collection_response st2 gs) w in
  r.1 = Return tt /\
  exists new_users new_groups,
    nodes r.2 = nodes w ++ new_users ++ new_groups /\
    scene r.2 = scene w ++ (Mesh <$> new_users ++ new_groups) /\
    userData <$> new_users = user_object <$> us /\
    userData <$> new_groups = group_object <$> gs /\
    length new_users = length us /\
    length new_groups = length gs.
Proof.
  intros r. split.
  - destruct (createGraph_arrays random (collection_response st1 us)
                (collection_response st2 gs) _ _ w
                (collection_of_response st1 us) (collection_of_response st2 gs)
                (all_ok_users us) (all_ok_groups gs)) as (w' & Hw & _).
    unfold r. by rewrite Hw.
  - destruct (createGraph_grown random (collection_response st1 us)
                (collection_response st2 gs) w) as (Hn & Hs & _).
    fold r in Hn, Hs. rewrite !collection_of_response in Hn, Hs.
    unfold graph_nodes in Hn, Hs. cbn [records is_array andb] in Hn, Hs.
    rewrite all_ok_users, datas_users, datas_groups in Hn, Hs.
    eexists _, _. split; [exact Hn|]. split; [exact Hs|].
    rewrite !userData_spheres, !length_spheres, !length_fmap. done.
Qed.

(** ** Identities *)

Lemma user_object_identity (record : object) :
  get (user_object record) "user_id" = js_or (get record "user_id") (get record "id").
Proof.
  unfold user_object, get at 1.
  by rewrite !lookup_insert_ne, lookup_insert_eq by done.
Qed.

Lemma group_object_identity (record : object) :
  get (group_object record) "group_id" = js_or (get record "group_id") (get record "id").
Proof. unfold group_object, get at 1. by rewrite lookup_insert_eq. Qed.

(** [C8], as amended.  For every input record the identity of the node is
    the field of its kind ([user_id] for a user, [group_id] for a group)
    when that field is truthy, and the generic [id] otherwise: when the
    field is absent, and also when it is [0], the empty string, [null] or
    [false]. *)
Theorem identity_of_record (record : object) :
  (exists d, user_data (VObj record) = Return d /\
             get d "user_id" = if truthy (get record "user_id")
                               then get record "user_id" else get record "id") /\
  (exists d, group_data (VObj record) = Return d /\
             get d "group_id" = if truthy (get record "group_id")
                                then get record "group_id" else get record "id").
Proof.
  split.
  - exists (user_object record). split; [apply user_data_object|].
    apply user_object_identity.
  - exists (group_object record). split; [apply group_data_object|].
    apply group_object_identity.
Qed.

(** ** Users before groups *)

Lemma user_data_type r d : user_data r = Return d -> get d "type" = VStr "user".
Proof.
  unfold user_data, and_then. intros H. repeat case_match; simplify_eq;
    unfold get; by rewrite !lookup_insert_ne, lookup_insert_eq by done.
Qed.

Lemma group_data_type r d : group_data r = Return d -> get d "type" = VStr "group".
Proof.
  unfold group_data, and_then. intros H. repeat case_match; simplify_eq;
    unfold get; by rewrite !lookup_insert_ne, lookup_insert_eq by done.
Qed.

Lemma datas_Forall (P : object -> Prop) data_of l :
  (forall r d, data_of r = Return d -> P d) -> Forall P (datas data_of l).
Proof.
  intros H. induction l as [|r l IH]; simpl; [constructor|].
  destruct (data_of r) eqn:Hr; [|constructor]. constructor; eauto.
Qed.

Lemma spheres_Forall (P : node -> Prop) random kind id0 rng0 ds :
  (forall i d, ds !! i = Some d ->
     P (Node (id0 + i) (nodeColors kind) (place random (rng0 + 3 * i)) d)) ->
  Forall P (spheres random kind id0 rng0 ds).
Proof.
  intros H. apply Forall_forall. intros m Hm.
  apply list_elem_of_lookup in Hm as [i Hi].
  unfold spheres in Hi. rewrite list_lookup_imap in Hi.
  destruct (ds !! i) eqn:Hd; simplify_eq/=. by apply H.
Qed.

Lemma user_spheres_type random uo :
  Forall (fun n => get (userData n) "type" = VStr "user") (user_spheres random uo).
Proof.
  apply spheres_Forall. intros i d Hd. simpl.
  pose proof (datas_Forall (fun d => get d "type" = VStr "user") user_data
                (records (collection uo)) user_data_type) as Hall.
  rewrite Forall_forall in Hall. apply Hall. by eapply list_elem_of_lookup_2.
Qed.

Lemma group_spheres_type random uo go :
  Forall (fun n => get (userData n) "type" = VStr "group") (group_spheres random uo go).
Proof.
  unfold group_spheres. case_match; [|constructor].
  apply spheres_Forall. intros i d Hd. simpl.
  pose proof (datas_Forall (fun d => get d "type" = VStr "group") group_data
                (records (collection go)) group_data_type) as Hall.
  rewrite Forall_forall in Hall. apply Hall. by eapply list_elem_of_lookup_2.
Qed.

Lemma node_matches_total rel k v n :
  get_prop rel k = Return v -> exists b, node_matches rel n = Return b.
Proof.
  intros Hv. unfold node_matches, field_matches, and_then.
  destruct rel; try done; simpl; repeat case_match; eauto.
Qed.

Lemma find_first (p : node -> completion bool) ns u :
  (forall n, exists b, p n = Return b) -> u ∈ ns -> p u = Return true ->
  forall rest, exists t, find p (ns ++ rest) = Return (Some t) /\ t ∈ ns /\ p t = Return true.
Proof.
  intros Htot Hu Hp rest. induction Hu as [u ns|u m ns Hu IH]; simpl.
  - rewrite Hp. exists u. split; [done|]. split; [left|done].
  - destruct (Htot m) as [[|] Hm]; rewrite Hm.
    + exists m. split; [done|]. split; [left|done].
    + destruct (IH Hp) as (t & Hf & Ht & Hpt). exists t. split; [done|]. split; [by right|done].
Qed.


(** ** Falsy identities *)

Lemma find_some (p : node -> completion bool) ns t :
  find p ns = Return (Some t) -> p t = Return true.
Proof.
  induction ns as [|m ms IH]; simpl; [done|].
  destruct (p m) as [[|]|e] eqn:Hm; intros H; simplify_eq; auto.
Qed.

Lemma falsy_identity_no_match rel n :
  truthy (node_identity n) = false -> node_matches rel n = Return false.
Proof.
  unfold node_identity, js_or, node_matches, field_matches, and_then.
  destruct (truthy (get (userData n) "user_id")) eqn:Hu; [congruence|].
  by intros ->.
Qed.

(** [C10], as amended.  A node whose [user_id] and [group_id] are both
    falsy, for example [0], the empty string or absent, satisfies neither
    side of the predicate of [nodes.find], whatever the entry refers to:
    each side requires the node's own field to be truthy.  So it is never
    the node that [nodes.find] returns for an entry, and never a target of
    resolution. *)
Theorem falsy_identity_never_target ns rels rel n :
  truthy (get (userData n) "user_id") = false ->
  truthy (get (userData n) "group_id") = false ->
  field_matches "user_id" n rel = Return false /\
  field_matches "group_id" n rel = Return false /\
  find (node_matches rel) ns <> Return (Some n) /\
  n ∉ targets ns rels.
Proof.
  intros Hu Hg.
  assert (Hn : truthy (node_identity n) = false).
  { unfold node_identity, js_or. by rewrite Hu. }
  split; [unfold field_matches; by rewrite Hu|].
  split; [unfold field_matches; by rewrite Hg|].
  split.
  - intros Hf. apply find_some in Hf. rewrite falsy_identity_no_match in Hf; done.
  - induction rels as [|r rels IH]; simpl; [by apply not_elem_of_nil|].
    destruct (find (node_matches r) ns) as [[t|]|e] eqn:Hf; try done;
      [|by apply not_elem_of_nil].
    apply not_elem_of_cons. split; [|done].
    intros ->. apply find_some in Hf. rewrite falsy_identity_no_match in Hf; done.
Qed.

(** ** Positions *)

Lemma position_spheres random kind id0 rng0 ds m :
  m ∈ spheres random kind id0 rng0 ds -> exists k, position m = place random k.
Proof.
  intros Hm. apply list_elem_of_lookup in Hm as [i Hi].
  unfold spheres in Hi. rewrite list_lookup_imap in Hi.
  destruct (ds !! i); simplify_eq/=. eauto.
Qed.

Lemma position_loaded random uo go n :
  n ∈ nodes (loaded random uo go) -> exists k, position n = place random k.
Proof.
  intros Hn. rewrite nodes_loaded in Hn.
  apply elem_of_app in Hn as [Hn|Hn].
  - by eapply position_spheres.
  - unfold group_spheres in Hn. case_match.
    + by eapply position_spheres.
    + by apply elem_of_nil in Hn.
Qed.

Section Ball.

Local Open Scope R_scope.

(** [cbrt] is the cube root. *)
Lemma cbrt_cube x : cbrt x ^ 3 = x.
Proof.
  assert (Hpos : forall y, 0 < y -> Rpower y (/ 3) ^ 3 = y).
  { intros y Hy. rewrite <- Rpower_pow by apply exp_pos.
    rewrite Rpower_mult. replace (/ 3 * INR 3) with 1 by (simpl; field).
    by apply Rpower_1. }
  unfold cbrt. destruct (Rlt_le_dec 0 x) as [H0|H0]; [by apply Hpos|].
  destruct (Rlt_le_dec x 0) as [H1|H1].
  - replace ((- Rpower (- x) (/ 3)) ^ 3) with (- (Rpower (- x) (/ 3) ^ 3)) by ring.
    rewrite Hpos by lra. ring.
  - replace x with 0 by lra. ring.
Qed.

Lemma cbrt_range u : 0 <= u < 1 -> 0 <= cbrt u < 1.
Proof.
  intros [H0 H1]. unfold cbrt.
  destruct (Rlt_le_dec 0 u) as [Hu|Hu].
  - unfold Rpower. split; [left; apply exp_pos|].
    rewrite <- exp_0. apply exp_increasing.
    assert (ln u < 0) by (rewrite <- ln_1; by apply ln_increasing).
    nra.
  - destruct (Rlt_le_dec u 0); lra.
Qed.

(** In the engine of the real numbers a position lies at its distance. *)
Lemma norm_spherical (d theta phi : R) :
  0 <= d -> norm (stored (spherical (engine := ideal) d theta phi)) = d.
Proof.
  intros Hd. unfold norm, stored, spherical. cbn [fst snd to_R num_mul Math_sin Math_cos ideal].
  replace (Rsqr (d * sin phi * cos theta) + Rsqr (d * sin phi * sin theta)
           + Rsqr (d * cos phi))
    with (Rsqr d * (Rsqr (sin phi) * (Rsqr (sin theta) + Rsqr (cos theta))
                    + Rsqr (cos phi)))
    by (unfold Rsqr; ring).
  rewrite sin2_cos2, Rmult_1_r, sin2_cos2, Rmult_1_r.
  by apply sqrt_Rsqr.
Qed.

Lemma norm_place (random : nat -> R) k :
  (forall i, 0 <= random i < 1) -> norm (place (engine := ideal) random k) < 15.
Proof.
  intros Hr. unfold place.
  pose proof (cbrt_range _ (Hr k)) as [H0 H1].
  rewrite norm_spherical; cbn [lit num_mul Math_cbrt ideal]; lra.
Qed.

(** In an engine that rounds, the errors add up as follows. *)
Lemma abs_le_inv x b : Rabs x <= b -> - b <= x <= b.
Proof. unfold Rabs. destruct (Rcase_abs x); lra. Qed.

Lemma abs_near x y e : Rabs (x - y) <= e -> Rabs x <= Rabs y + e.
Proof.
  intros H. pose proof (Rabs_triang (x - y) y) as Ht.
  replace (x - y + y) with x in Ht by ring. lra.
Qed.

Lemma sqr_le_of_abs x b : Rabs x <= b -> x * x <= b * b.
Proof.
  intros H. pose proof (Rabs_pos x) as H0.
  replace (x * x) with (Rabs x * Rabs x).
  - apply Rmult_le_compat; lra.
  - unfold Rabs. destruct (Rcase_abs x); ring.
Qed.

(** A vector whose coordinates are at most those of a vector of length
    [K T^2], each up to an error, is at most that long up to the sum of the
    errors. *)
Lemma ball_bound (K T x y z S C S' C' e1 e2 e3 : R) :
  0 <= K -> 1 <= T ->
  0 <= S -> 0 <= C -> 0 <= S' -> 0 <= C' ->
  0 <= e1 -> 0 <= e2 -> 0 <= e3 ->
  S * S + C * C <= T * T ->
  S' * S' + C' * C' <= T * T ->
  Rabs x <= K * S * C' + e1 -> Rabs y <= K * S * S' + e2 -> Rabs z <= K * C + e3 ->
  sqrt (Rsqr x + Rsqr y + Rsqr z) <= K * (T * T) + (e1 + e2 + e3).
Proof.
  intros HK HT HS HC HS' HC' He1 He2 He3 Hphi Htheta Hx Hy Hz.
  apply sqr_le_of_abs in Hx, Hy, Hz.
  set (m1 := K * S * C') in *. set (m2 := K * S * S') in *. set (m3 := K * C) in *.
  set (M := K * (T * T)).
  assert (Hm1 : 0 <= m1) by (unfold m1; apply Rmult_le_pos; [apply Rmult_le_pos|]; lra).
  assert (Hm2 : 0 <= m2) by (unfold m2; apply Rmult_le_pos; [apply Rmult_le_pos|]; lra).
  assert (Hm3 : 0 <= m3) by (unfold m3; apply Rmult_le_pos; lra).
  assert (HTT : 1 <= T * T) by nra.
  assert (HM : 0 <= M) by (unfold M; nra).
  assert (Hsum : m1 * m1 + m2 * m2 + m3 * m3 <= M * M).
  { unfold m1, m2, m3, M.
    assert (H1 : (K * S) * (K * S) * (C' * C' + S' * S') <= (K * S) * (K * S) * (T * T)).
    { apply Rmult_le_compat_l; [nra|lra]. }
    assert (H2 : (K * C) * (K * C) <= (K * C) * (K * C) * (T * T)).
    { assert (0 <= (K * C) * (K * C)) by nra. nra. }
    assert (H3 : (K * K) * (T * T) * (S * S + C * C) <= (K * K) * (T * T) * (T * T)).
    { apply Rmult_le_compat_l; [nra|lra]. }
    nra. }
  assert (Hle : forall m, 0 <= m -> m * m <= M * M -> m <= M).
  { intros m Hm Hmm. destruct (Rle_lt_dec m M) as [|Hlt]; [assumption|]. nra. }
  assert (H1 : m1 <= M) by (apply Hle; [assumption|nra]).
  assert (H2 : m2 <= M) by (apply Hle; [assumption|nra]).
  assert (H3 : m3 <= M) by (apply Hle; [assumption|nra]).
  rewrite <- (sqrt_Rsqr (M + (e1 + e2 + e3))) by lra.
  apply sqrt_le_1_alt. unfold Rsqr.
  assert (m1 * e1 <= M * e1) by (apply Rmult_le_compat_r; lra).
  assert (m2 * e2 <= M * e2) by (apply Rmult_le_compat_r; lra).
  assert (m3 * e3 <= M * e3) by (apply Rmult_le_compat_r; lra).
  assert (0 <= e1 * e2) by (apply Rmult_le_pos; lra).
  assert (0 <= e1 * e3) by (apply Rmult_le_pos; lra).
  assert (0 <= e2 * e3) by (apply Rmult_le_pos; lra).
  nra.
Qed.

Lemma trig_bound eps s c phi :
  0 <= eps -> Rabs (s - sin phi) <= eps -> Rabs (c - cos phi) <= eps ->
  Rabs s * Rabs s + Rabs c * Rabs c <= (1 + 2 * eps) * (1 + 2 * eps).
Proof.
  intros He Hs Hc.
  pose proof (sin2_cos2 phi) as H1. unfold Rsqr in H1.
  pose proof (SIN_bound phi) as [Hs1 Hs2]. pose proof (COS_bound phi) as [Hc1 Hc2].
  apply abs_le_inv in Hs, Hc.
  replace (Rabs s * Rabs s) with (s * s) by (unfold Rabs; destruct (Rcase_abs s); ring).
  replace (Rabs c * Rabs c) with (c * c) by (unfold Rabs; destruct (Rcase_abs c); ring).
  set (a := s - sin phi) in *. set (b := c - cos phi) in *.
  replace s with (sin phi + a) by (unfold a; ring).
  replace c with (cos phi + b) by (unfold b; ring).
  assert (a * a <= eps * eps) by nra.
  assert (b * b <= eps * eps) by nra.
  assert (sin phi * a <= eps) by nra.
  assert (cos phi * b <= eps) by nra.
  nra.
Qed.

Section Accurate.

Variables u eps eta : R.
Hypothesis engine_accurate : accurate u eps eta.

Lemma product_bound (a b : num) :
  Rabs (to_R (a * b)%num) <= (1 + u) * (Rabs (to_R a) * Rabs (to_R b)) + eta.
Proof using engine_accurate.
  pose proof (accurate_u _ _ _ engine_accurate) as Hu.
  pose proof (accurate_eta _ _ _ engine_accurate) as He.
  pose proof (Rabs_pos (to_R a * to_R b)) as Hp.
  rewrite <- Rabs_mult.
  destruct (num_finite (a * b)%num) eqn:Hf.
  - pose proof (abs_near _ _ _ (accurate_mul _ _ _ engine_accurate a b Hf)). lra.
  - rewrite (accurate_finite _ _ _ engine_accurate _ Hf), Rabs_R0. nra.
Qed.

Lemma cbrt_bound (x : num) :
  0 <= to_R x < 1 -> Rabs (to_R (Math_cbrt x)) <= 1 + eps.
Proof using engine_accurate.
  intros Hx. pose proof (accurate_eps _ _ _ engine_accurate) as He.
  destruct (num_finite (Math_cbrt x)) eqn:Hf.
  - pose proof (abs_near _ _ _ (accurate_cbrt _ _ _ engine_accurate x Hx Hf)) as H.
    pose proof (cbrt_range _ Hx) as [H0 H1].
    rewrite (Rabs_pos_eq (cbrt (to_R x))) in H by lra. lra.
  - rewrite (accurate_finite _ _ _ engine_accurate _ Hf), Rabs_R0. lra.
Qed.

Lemma sin_bound (x : num) : Rabs (to_R (Math_sin x)) <= 1 + eps.
Proof using engine_accurate.
  pose proof (accurate_eps _ _ _ engine_accurate) as He.
  destruct (num_finite (Math_sin x)) eqn:Hf.
  - pose proof (abs_near _ _ _ (accurate_sin _ _ _ engine_accurate x Hf)) as H.
    pose proof (SIN_bound (to_R x)) as [H0 H1].
    assert (Rabs (sin (to_R x)) <= 1) by (apply Rabs_le; lra). lra.
  - rewrite (accurate_finite _ _ _ engine_accurate _ Hf), Rabs_R0. lra.
Qed.

Lemma cos_bound (x : num) : Rabs (to_R (Math_cos x)) <= 1 + eps.
Proof using engine_accurate.
  pose proof (accurate_eps _ _ _ engine_accurate) as He.
  destruct (num_finite (Math_cos x)) eqn:Hf.
  - pose proof (abs_near _ _ _ (accurate_cos _ _ _ engine_accurate x Hf)) as H.
    pose proof (COS_bound (to_R x)) as [H0 H1].
    assert (Rabs (cos (to_R x)) <= 1) by (apply Rabs_le; lra). lra.
  - rewrite (accurate_finite _ _ _ engine_accurate _ Hf), Rabs_R0. lra.
Qed.

(** The sine and the cosine the engine returns for one angle lie on the
    unit circle up to [2 eps]. *)
Lemma unit_circle (x : num) :
  Rabs (to_R (Math_sin x)) * Rabs (to_R (Math_sin x))
  + Rabs (to_R (Math_cos x)) * Rabs (to_R (Math_cos x))
  <= (1 + 2 * eps) * (1 + 2 * eps).
Proof using engine_accurate.
  pose proof (accurate_eps _ _ _ engine_accurate) as He.
  pose proof (sin_bound x) as Hs. pose proof (cos_bound x) as Hc.
  pose proof (Rabs_pos (to_R (Math_sin x))) as Hs0.
  pose proof (Rabs_pos (to_R (Math_cos x))) as Hc0.
  destruct (num_finite (Math_sin x)) eqn:Hfs; [destruct (num_finite (Math_cos x)) eqn:Hfc|].
  - apply (trig_bound eps _ _ (to_R x)); [lra|..].
    + by apply (accurate_sin _ _ _ engine_accurate).
    + by apply (accurate_cos _ _ _ engine_accurate).
  - rewrite (accurate_finite _ _ _ engine_accurate _ Hfc), Rabs_R0 in *. nra.
  - rewrite (accurate_finite _ _ _ engine_accurate _ Hfs), Rabs_R0 in *. nra.
Qed.

(** The distance of a position from the origin is at most [15], stretched
    by the relative errors of the engine, plus what underflow adds. *)
Lemma norm_place_accurate random k :
  0 <= to_R (random k) < 1 ->
  norm (place random k) <= 15 * slack u eps + 64 * eta.
Proof using engine_accurate.
  intros Hr.
  pose proof (accurate_u _ _ _ engine_accurate) as Hu.
  pose proof (accurate_eps _ _ _ engine_accurate) as He.
  pose proof (accurate_eta _ _ _ engine_accurate) as Heta.
  unfold place, norm, stored, spherical. cbn [fst snd].
  set (d := (lit 15 * Math_cbrt (random k))%num).
  set (theta := (random (S k) * lit 2 * Math_PI)%num).
  set (phi := Math_acos (lit 2 * random (S (S k)) - lit 1)%num).
  set (D := Rabs (to_R d)).
  set (S1 := Rabs (to_R (Math_sin phi))). set (C1 := Rabs (to_R (Math_cos phi))).
  set (S2 := Rabs (to_R (Math_sin theta))). set (C2 := Rabs (to_R (Math_cos theta))).
  set (T := 1 + 2 * eps).
  assert (HD0 : 0 <= D) by apply Rabs_pos.
  assert (HS1 : 0 <= S1) by apply Rabs_pos.
  assert (HC1 : 0 <= C1) by apply Rabs_pos.
  assert (HS2 : 0 <= S2) by apply Rabs_pos.
  assert (HC2 : 0 <= C2) by apply Rabs_pos.
  assert (HS2T : S2 <= T) by (pose proof (sin_bound theta); unfold S2, T; lra).
  assert (HC2T : C2 <= T) by (pose proof (cos_bound theta); unfold C2, T; lra).
  assert (HD : D <= (1 + u) * (15 * (1 + eps)) + eta).
  { unfold D, d. etransitivity; [apply product_bound|].
    rewrite (accurate_lit _ _ _ engine_accurate), (Rabs_pos_eq 15) by lra.
    pose proof (cbrt_bound (random k) Hr) as Hc.
    assert ((1 + u) * (15 * Rabs (to_R (Math_cbrt (random k))))
            <= (1 + u) * (15 * (1 + eps))); [|lra].
    apply Rmult_le_compat_l; [lra|]. apply Rmult_le_compat_l; lra. }
  set (K := (1 + u) * (1 + u) * D).
  assert (HK : 0 <= K) by (unfold K; nra).
  set (e1 := (1 + u) * eta * C2 + eta). set (e2 := (1 + u) * eta * S2 + eta).
  assert (Hue : 0 <= (1 + u) * eta) by (apply Rmult_le_pos; lra).
  assert (He1 : 0 <= e1).
  { unfold e1. pose proof (Rmult_le_pos _ _ Hue HC2). lra. }
  assert (He2 : 0 <= e2).
  { unfold e2. pose proof (Rmult_le_pos _ _ Hue HS2). lra. }
  assert (Hp : Rabs (to_R (d * Math_sin phi)%num) <= (1 + u) * (D * S1) + eta)
    by apply product_bound.
  assert (Hball : sqrt (Rsqr (to_R (d * Math_sin phi * Math_cos theta)%num)
                        + Rsqr (to_R (d * Math_sin phi * Math_sin theta)%num)
                        + Rsqr (to_R (d * Math_cos phi)%num))
                  <= K * (T * T) + (e1 + e2 + eta)).
  { apply (ball_bound K T _ _ _ S1 C1 S2 C2 e1 e2 eta); try assumption.
    - unfold T. lra.
    - apply unit_circle.
    - apply unit_circle.
    - etransitivity; [apply product_bound|]. fold C2. unfold K, e1.
      assert (Rabs (to_R (d * Math_sin phi)%num) * C2
              <= ((1 + u) * (D * S1) + eta) * C2)
        by (apply Rmult_le_compat_r; lra).
      nra.
    - etransitivity; [apply product_bound|]. fold S2. unfold K, e2.
      assert (Rabs (to_R (d * Math_sin phi)%num) * S2
              <= ((1 + u) * (D * S1) + eta) * S2)
        by (apply Rmult_le_compat_r; lra).
      nra.
    - etransitivity; [apply product_bound|]. fold D C1. unfold K.
      assert (0 <= D * C1) by nra. nra. }
  etransitivity; [exact Hball|]. unfold K, slack.
  assert (HT : 1 <= T <= 3) by (unfold T; lra).
  assert (HTT : 1 <= T * T <= 9) by nra.
  assert (HU : 1 <= (1 + u) * (1 + u) <= 4) by nra.
  assert (HUT : 0 <= (1 + u) * (1 + u) * (T * T) <= 36) by nra.
  assert (Hmain : (1 + u) * (1 + u) * D * (T * T)
                  <= (1 + u) * (1 + u) * (T * T) * ((1 + u) * (15 * (1 + eps)) + eta)).
  { replace ((1 + u) * (1 + u) * D * (T * T))
      with ((1 + u) * (1 + u) * (T * T) * D) by ring.
    apply Rmult_le_compat_l; lra. }
  assert (Hleak : (1 + u) * (1 + u) * (T * T) * eta + (e1 + e2 + eta) <= 64 * eta).
  { unfold e1, e2.
    assert ((1 + u) * (1 + u) * (T * T) * eta <= 36 * eta)
      by (apply Rmult_le_compat_r; lra).
    assert ((1 + u) * eta * C2 <= 2 * eta * 3).
    { apply Rmult_le_compat; try nra. }
    assert ((1 + u) * eta * S2 <= 2 * eta * 3).
    { apply Rmult_le_compat; try nra. }
    lra. }
  replace (15 * ((1 + u) ^ 3 * (1 + eps) * (1 + 2 * eps) ^ 2))
    with ((1 + u) * (1 + u) * (T * T) * ((1 + u) * (15 * (1 + eps))))
    by (unfold T; ring).
  lra.
Qed.

End Accurate.

End Ball.


End AnyEngine.

(** * The sample inputs *)

Lemma nodes_sample_world : nodes sample_world = [sample_node].
Proof. reflexivity. Qed.

Lemma nodes_zero_world : nodes zero_world = [zero_node].
Proof. reflexivity. Qed.

Lemma nodes_sevens :
  nodes (loaded no_jitter user_seven group_seven) = [user_seven_node; group_seven_node].
Proof. reflexivity. Qed.

(** The scenario of the specification: the self-reference is drawn, as one
    edge from the node to itself. *)
Lemma self_loop_drawn :
  points <$> drawn_edges (run sample_world [Click (Some sample_node);
                                            RelFetched 0 self_reference])
  = [edge sample_node sample_node].
Proof. reflexivity. Qed.

(** [C1], a paced run. *)
Lemma selection_invariant_paced_witness :
  selection_invariant paced_run (run (loaded no_jitter one_user no_groups) paced_run).
Proof. apply selection_invariant_paced. reflexivity. Defined.

(** [C1], as stated, fails when the answer to a request arrives after the
    click that deselects: nothing is selected, yet an edge is drawn and the
    panel is shown. *)
Lemma selection_invariant_racy :
  let w := run sample_world racy_run in
  selectedNode w = None /\
  length (drawn_edges w) = 1 /\
  node_info w = Some (info_rows (userData sample_node)) /\
  ~ selection_invariant racy_run w.
Proof.
  cbn zeta.
  assert (Hs : selectedNode (run sample_world racy_run) = None)
    by (vm_compute; reflexivity).
  assert (Hl : length (drawn_edges (run sample_world racy_run)) = 1)
    by (vm_compute; reflexivity).
  split; [done|]. split; [done|]. split; [vm_compute; reflexivity|].
  unfold selection_invariant. rewrite Hs. intros [Hedges _].
  by rewrite Hedges in Hl.
Qed.

(** [C2], as stated, fails for an identity that is falsy: the user built
    from [{id: 0}] has identity [0], the entry [{user_id: 0}] refers to it,
    and no edge is drawn. *)
Lemma falsy_reference_not_drawn :
  let w' := run zero_world [Click (Some zero_node);
                            RelFetched 0 (relationships_response 200 ∅ [zero_entry])] in
  edges_by refers_to (nodes zero_world) zero_node [zero_entry] = [edge zero_node zero_node] /\
  drawn_edges w' = [] /\
  points <$> drawn_edges w' <> edges_by refers_to (nodes zero_world) zero_node [zero_entry].
Proof.
  cbn zeta. split; [reflexivity|]. split; [reflexivity|].
  change (drawn_edges _) with (@nil line).
  change (edges_by _ _ _ _) with [edge zero_node zero_node]. done.
Qed.

(** [C4], as stated, fails on an error body under a non-2xx status: the
    request does not yield [null], the body has no relationship list, and
    resolution throws instead of yielding an empty list; the panel is not
    shown. *)
Lemma not_found_throws :
  let w' := run sample_world [Click (Some sample_node); RelFetched 0 not_found] in
  (logFetch (relationships_url sample_node) not_found sample_world).1 <> Return VNull /\
  relationships_of not_found = VUndef /\
  (displayNodeInfo_resume sample_node not_found sample_world).1 = Throw TypeError /\
  uncaught w' = [TypeError] /\
  node_info w' = None.
Proof.
  cbn zeta. split; [|by repeat split].
  rewrite logFetch_eq. simpl. congruence.
Qed.

(** [C4], on a request that fails in transport. *)
Lemma null_relationships_no_edges_witness :
  let w := run (loaded no_jitter one_user no_groups) [] in
  let w' := run w [Click (Some sample_node); RelFetched (length (in_flight w)) NetworkError] in
  (drawn_edges w' = [] /\
   uncaught w' = uncaught w /\
   selectedNode w' = Some sample_node /\
   node_info w' = Some (info_rows (userData sample_node))) /\
  (forall u w1, (logFetch u NetworkError w1).1 = Return VNull) /\
  (forall u status w1, (logFetch u (Response status None) w1).1 = Return VNull).
Proof.
  apply (null_relationships_no_edges no_jitter one_user no_groups [] sample_node NetworkError).
  reflexivity.
Defined.

(** The engine of the real numbers makes no error. *)
Lemma ideal_accurate : accurate (engine := ideal) 0 0 0.
Proof.
  split; try lra; try reflexivity; try discriminate; intros;
    cbn [to_R num_mul Math_cbrt Math_sin Math_cos ideal];
    rewrite Rminus_diag, Rabs_R0; lra.
Qed.

Lemma slack_ideal : slack 0 0 = 1%R.
Proof. unfold slack. ring. Qed.

(** The real number of a double whose mantissa and exponent are known. *)
Lemma double_value (x : PrimFloat.float) s m e :
  FloatOps.Prim2SF x = SpecFloat.S754_finite s m (Z.neg e) ->
  double_to_R x = (IZR (if s then Z.neg m else Z.pos m) / IZR (Z.pow_pos 2 e))%R.
Proof.
  intros H. unfold double_to_R. rewrite H. unfold SF2R, Rdiv. f_equal.
  change (Z.neg e) with (- Z.pos e)%Z.
  by rewrite powerRZ_neg', Zpower_pos_powerRZ.
Qed.

Lemma far_draws_unit k : (0 <= double_to_R (far_draws k) < 1)%R.
Proof.
  destruct k as [|[|k]]; cbn [far_draws].
  - rewrite (double_value _ false 9007199254740991 53) by (vm_compute; reflexivity).
    change (Z.pow_pos 2 53) with 9007199254740992%Z. lra.
  - replace (double_to_R _) with 0%R by (vm_compute; reflexivity). lra.
  - rewrite (double_value _ false 4503599627370496 54) by (vm_compute; reflexivity).
    change (Z.pow_pos 2 54) with 18014398509481984%Z. lra.
Qed.




(** [C8], as stated, fails on a record whose [user_id] is present and
    falsy: the identity is the generic [id]. *)
Lemma falsy_user_id_falls_back :
  exists d, user_data (VObj falsy_user_id) = Return d /\
            get d "user_id" = VNum 5 /\
            ~ identity_as_specified "user_id" falsy_user_id (get d "user_id").
Proof.
  exists (user_object falsy_user_id). split; [apply user_data_object|].
  split; [reflexivity|].
  intros [Hpresent _]. specialize (Hpresent (VNum 0) eq_refl).
  change (get (user_object falsy_user_id) "user_id") with (VNum 5) in Hpresent.
  discriminate.
Qed.


(** [C10], as stated, fails for a user whose identity is [0] and whose
    record carries the identity of a group: the node is of type user, its
    identity [user_id] is falsy, and it is the node found for an entry
    that refers to the group, to which an edge is drawn. *)
Lemma falsy_identity_found_by_group :
  let w := loaded no_jitter (collection_response 200 [member_zero]) no_groups in
  let w' := run w [Click (Some member_zero_node);
                   RelFetched 0 (relationships_response 200 ∅ [group_four])] in
  nodes w = [member_zero_node] /\
  stored_identity member_zero_node = VNum 0 /\
  truthy (stored_identity member_zero_node) = false /\
  find (node_matches (VObj group_four)) (nodes w) = Return (Some member_zero_node) /\
  member_zero_node ∈ targets (nodes w) [VObj group_four] /\
  points <$> drawn_edges w' = [edge member_zero_node member_zero_node].
Proof.
  cbn zeta. split; [reflexivity|]. split; [reflexivity|]. split; [reflexivity|].
  split; [reflexivity|]. split; [vm_compute; left|].
  vm_compute. reflexivity.
Qed.

(** [C10], on the user whose identity is [0]. *)
Lemma falsy_identity_never_target_witness :
  field_matches "user_id" zero_node (VObj zero_entry) = Return false /\
  field_matches "group_id" zero_node (VObj zero_entry) = Return false /\
  find (node_matches (VObj zero_entry)) (nodes zero_world) <> Return (Some zero_node) /\
  zero_node ∉ targets (nodes zero_world) [VObj zero_entry].
Proof.
  apply (falsy_identity_never_target (nodes zero_world) [VObj zero_entry]
           (VObj zero_entry) zero_node); reflexivity.
Defined.

(** * Further properties of the script *)

Section FurtherProperties.

Context `{engine : arithmetic}.

(** ** What [createGraph] does on bodies of any shape *)

Lemma loops_eq random users groups w :
  loops random users groups w =
  let w1 := build random "user" user_data (records users) w in
  if is_array users && all_ok user_data (records users)
  then (if is_array groups && all_ok group_data (records groups)
        then Return tt else Throw TypeError,
        build random "group" group_data (records groups) w1)
  else (Throw TypeError, w1).
Proof.
  unfold loops, bind. rewrite forEach_add by apply user_data_throws.
  destruct (is_array users && all_ok user_data (records users)); [|done].
  cbv beta iota zeta. by rewrite forEach_add by apply group_data_throws.
Qed.

(** The three ways through [createGraph] after [fetchNodes]. *)
Lemma createGraph_cases random uo go w :
  let w1 := after_fetchNodes uo go w in
  createGraph random uo go w = loops random (collection uo) (collection go) w1 \/
  createGraph random uo go w = (Return tt, set_console (console w1 ++ [WarnNoNodes]) w1) \/
  createGraph random uo go w = (Throw TypeError, w1).
Proof.
  cbn zeta. remember (createGraph random uo go w) as r eqn:Hr.
  unfold createGraph in Hr. unfold bind at 1 in Hr. rewrite fetchNodes_eq in Hr.
  cbn [fst snd] in Hr. fold (loops random (collection uo) (collection go)) in Hr.
  unfold bind at 1 in Hr. unfold lift at 1 in Hr.
  destruct (get_prop (collection uo) "length") as [ulen|e] eqn:Hul.
  - destruct (strict_eq ulen (VNum 0)).
    + unfold bind at 1 in Hr. unfold lift at 1 in Hr.
      destruct (get_prop (collection go) "length") as [glen|e] eqn:Hgl.
      * destruct (strict_eq glen (VNum 0)); cbn [andb] in Hr; [right; left|left]; done.
      * right. right. by rewrite (get_prop_throws _ _ _ Hgl) in Hr.
    + unfold bind at 1 in Hr. unfold ret at 1 in Hr. cbn [andb] in Hr. by left.
  - right. right. by rewrite (get_prop_throws _ _ _ Hul) in Hr.
Qed.

Lemma createGraph_log random uo go w :
  let r := createGraph random uo go w in
  requests r.2 = requests w ++ [UsersUrl; GroupsUrl] /\
  uncaught r.2 = uncaught w /\
  (r.1 = Return tt \/ r.1 = Throw TypeError).
Proof.
  cbn zeta.
  destruct (createGraph_cases random uo go w) as [H|[H|H]]; rewrite H; clear H.
  - rewrite loops_eq. cbn zeta.
    destruct (is_array (collection uo) && all_ok user_data (records (collection uo)));
      [destruct (is_array (collection go) && all_ok group_data (records (collection go)))|];
      simpl; auto.
  - simpl. auto.
  - simpl. auto.
Qed.

(** ** What leaves to the network and what escapes as an error *)

Lemma requests_loaded random uo go :
  requests (loaded random uo go) = [UsersUrl; GroupsUrl].
Proof.
  destruct (createGraph_log random uo go boot) as (Hr & _ & _).
  unfold loaded. by destruct (createGraph random uo go boot) as [[[]|e] w].
Qed.

Lemma uncaught_loaded random uo go :
  Forall (fun e => e = TypeError) (uncaught (loaded random uo go)).
Proof.
  destruct (createGraph_log random uo go boot) as (_ & Hu & Hc).
  unfold loaded. destruct (createGraph random uo go boot) as [[[]|e] w]; simpl in *.
  - rewrite Hu. constructor.
  - rewrite Hu. destruct Hc as [Hc|Hc]; simplify_eq. by repeat constructor.
Qed.

Lemma step_log w e :
  tidy w ->
  requests (step w e) = requests w ++ (relationships_url <$> clicked_nodes [e]) /\
  exists errs, uncaught (step w e) = uncaught w ++ errs /\
               Forall (fun e => e = TypeError) errs.
Proof.
  intros H. destruct e as [[n|]|k o].
  - rewrite step_click_some by done. split; [done|].
    exists []. by rewrite app_nil_r.
  - rewrite step_click_none by done. unfold unselected.
    split; [destruct (selectedNode w); simpl; by rewrite app_nil_r|].
    exists []. rewrite app_nil_r. by destruct (selectedNode w).
  - destruct (in_flight w !! k) as [n|] eqn:Hk.
    + rewrite (step_fetched _ _ _ _ Hk). cbn zeta. unfold resumed.
      cbn [nodes set_in_flight next_id].
      destruct (resolution_throws (nodes w) o); simpl; rewrite app_nil_r.
      * split; [done|]. exists [TypeError]. by repeat constructor.
      * split; [done|]. exists []. by rewrite app_nil_r.
    + simpl. rewrite Hk. rewrite app_nil_r. split; [done|].
      exists []. by rewrite app_nil_r.
Qed.

Lemma requests_run w evs :
  tidy w ->
  requests (run w evs) = requests w ++ (relationships_url <$> clicked_nodes evs).
Proof.
  revert w. induction evs as [|e evs IH]; intros w H.
  - simpl. by rewrite app_nil_r.
  - change (run w (e :: evs)) with (run (step w e) evs).
    rewrite IH by (by apply tidy_step).
    destruct (step_log w e H) as [-> _].
    rewrite <- app_assoc, <- fmap_app. do 2 f_equal.
    unfold clicked_nodes. by rewrite <- omap_app.
Qed.

Lemma uncaught_run w evs :
  tidy w ->
  Forall (fun e => e = TypeError) (uncaught w) ->
  Forall (fun e => e = TypeError) (uncaught (run w evs)).
Proof.
  revert w. induction evs as [|e evs IH]; intros w H Hu; [done|].
  change (run w (e :: evs)) with (run (step w e) evs).
  apply IH; [by apply tidy_step|].
  destruct (step_log w e H) as (_ & errs & -> & Herrs).
  by apply Forall_app.
Qed.

(** [X1].  The requests the page sends are the two collection requests,
    then one relationships request per click that hits a node, addressed to
    that node, in the order of the clicks: an answer, a click on nothing or
    an error never sends a request, and no answer is reused. *)
Theorem network_traffic random uo go evs :
  requests (run (loaded random uo go) evs) =
  [UsersUrl; GroupsUrl] ++ (relationships_url <$> clicked_nodes evs).
Proof.
  rewrite requests_run by apply tidy_loaded. by rewrite requests_loaded.
Qed.

(** [X2].  Whatever the requests bring back and whatever is clicked, the
    only errors that escape are [TypeError]s: a failure of the network and
    a body that does not parse are always caught by [logFetch]. *)
Theorem only_type_errors_escape random uo go evs :
  Forall (fun e => e = TypeError) (uncaught (run (loaded random uo go) evs)).
Proof.
  apply uncaught_run; [apply tidy_loaded|apply uncaught_loaded].
Qed.

(** [X3].  After loading, no event adds, removes or replaces a node: the
    registry stays what [createGraph] built, the scene holds these spheres
    followed by the lines of [lines], and nothing else. *)
Theorem registry_and_scene_kept random uo go evs :
  let w := run (loaded random uo go) evs in
  nodes w = nodes (loaded random uo go) /\
  scene w = (Mesh <$> nodes (loaded random uo go)) ++ (Line <$> lines w) /\
  drawn_edges w = lines w.
Proof.
  intros w.
  assert (Ht : tidy w) by apply tidy_run, tidy_loaded.
  assert (Hn : nodes w = nodes (loaded random uo go)) by apply nodes_run, tidy_loaded.
  split; [done|]. split; [|by apply drawn_edges_tidy].
  rewrite <- Hn. by destruct Ht.
Qed.

(** ** Clearing *)

(** [X4].  In every world the page can reach, [clearConnections] returns
    normally, removes every relationship edge from the scene and from
    [lines], removes no sphere, and a second call changes nothing. *)
Theorem clearConnections_clears random uo go evs :
  let w := run (loaded random uo go) evs in
  let w' := (clearConnections w).2 in
  (clearConnections w).1 = Return tt /\
  lines w' = [] /\
  drawn_edges w' = [] /\
  scene w' = Mesh <$> nodes w /\
  nodes w' = nodes w /\
  clearConnections w' = (Return tt, w').
Proof.
  intros w w'.
  assert (Ht : tidy w) by apply tidy_run, tidy_loaded.
  assert (Ht' : tidy (set_lines [] (set_scene (Mesh <$> nodes w) w)))
    by (by apply tidy_no_lines).
  unfold w'. rewrite clearConnections_tidy by done. cbn [fst snd].
  rewrite (clearConnections_tidy _ Ht'), (drawn_edges_tidy _ Ht').
  by repeat split.
Qed.

(** [X5].  A click that hits nothing leaves nothing selected and sends
    nothing; the requests in flight stay in flight.  If a node was selected,
    every edge and the panel are removed.  If nothing was selected, the
    click changes nothing at all, so an overlay that a late answer drew
    stays.  A second such click never changes anything. *)
Theorem click_on_nothing random uo go evs :
  let w := run (loaded random uo go) evs in
  let w' := step w (Click None) in
  selectedNode w' = None /\
  in_flight w' = in_flight w /\
  requests w' = requests w /\
  match selectedNode w with
  | Some _ => drawn_edges w' = [] /\ node_info w' = None
  | None => w' = w
  end /\
  step w' (Click None) = w'.
Proof.
  intros w w'.
  assert (Ht : tidy w) by apply tidy_run, tidy_loaded.
  assert (Hw' : w' = unselected w) by (by apply step_click_none).
  assert (Hidem : unselected (unselected w) = unselected w).
  { unfold unselected. destruct (selectedNode w) eqn:Hs; simpl; by rewrite ?Hs. }
  pose proof (drawn_edges_tidy _ (tidy_unselected w Ht)) as Hd.
  rewrite (step_click_none w') by (by apply tidy_step).
  rewrite Hw', Hidem. clear Hidem Hw'.
  unfold unselected in *. destruct (selectedNode w) eqn:Hs; [|by rewrite Hs].
  by repeat split.
Qed.

(** ** Answers that arrive late *)

(** The answer to a request in flight adds the edges it resolves to the
    lines already drawn, whichever node is selected by then. *)
Lemma answer_adds_edges i o n w :
  in_flight w !! i = Some n ->
  let w' := step w (RelFetched i o) in
  nodes w' = nodes w /\
  selectedNode w' = selectedNode w /\
  in_flight w' = delete i (in_flight w) /\
  points <$> lines w' = (points <$> lines w) ++ resolution (nodes w) n o.
Proof.
  intros Hi. cbn zeta. rewrite (step_fetched _ _ _ _ Hi). cbn zeta.
  unfold resumed. cbn [nodes next_id set_in_flight].
  destruct (resolution_throws (nodes w) o); simpl;
    rewrite fmap_app, points_new_lines; done.
Qed.

(** [X6].  Two clicks on nodes [a] and [b] before either request is
    answered: when the two answers have arrived, in either order, [b] is
    selected and the edges of [a] are drawn together with the edges of [b],
    those of the answer that arrived first coming first; the first overlay
    is not discarded. *)
Theorem late_answers_accumulate random uo go evs a b oa ob :
  let w := run (loaded random uo go) evs in
  let k := length (in_flight w) in
  let a_first :=
    run w [Click (Some a); Click (Some b); RelFetched k oa; RelFetched k ob] in
  let b_first :=
    run w [Click (Some a); Click (Some b); RelFetched (S k) ob; RelFetched k oa] in
  (selectedNode a_first = Some b /\
   in_flight a_first = in_flight w /\
   points <$> drawn_edges a_first
   = resolution (nodes w) a oa ++ resolution (nodes w) b ob) /\
  (selectedNode b_first = Some b /\
   in_flight b_first = in_flight w /\
   points <$> drawn_edges b_first
   = resolution (nodes w) b ob ++ resolution (nodes w) a oa).
Proof.
  intros w k a_first b_first.
  assert (Ht : tidy w) by apply tidy_run, tidy_loaded.
  assert (Hta : tidy a_first) by (by apply tidy_run).
  assert (Htb : tidy b_first) by (by apply tidy_run).
  rewrite (drawn_edges_tidy _ Hta), (drawn_edges_tidy _ Htb).
  unfold a_first, b_first, run. cbn [foldl].
  rewrite (step_click_some a w) by done.
  rewrite (step_click_some b) by (by apply tidy_clicked).
  set (w2 := clicked b (clicked a w)).
  assert (Hf2 : in_flight w2 = in_flight w ++ [a; b]).
  { unfold w2. simpl. by rewrite <- app_assoc. }
  assert (Hn2 : nodes w2 = nodes w) by done.
  assert (Hs2 : selectedNode w2 = Some b) by done.
  assert (Hl2 : lines w2 = []) by done.
  split.
  - assert (Hka : in_flight w2 !! k = Some a).
    { rewrite Hf2. by apply list_lookup_middle. }
    destruct (answer_adds_edges k oa a w2 Hka) as (Hn3 & Hs3 & Hf3 & Hl3).
    cbn zeta in Hn3, Hs3, Hf3, Hl3.
    set (w3 := step w2 (RelFetched k oa)) in *.
    rewrite Hf2 in Hf3. unfold k in Hf3. rewrite delete_middle in Hf3.
    assert (Hkb : in_flight w3 !! k = Some b).
    { rewrite Hf3. by apply list_lookup_middle. }
    destruct (answer_adds_edges k ob b w3 Hkb) as (Hn4 & Hs4 & Hf4 & Hl4).
    cbn zeta in Hn4, Hs4, Hf4, Hl4.
    rewrite Hs4, Hs3, Hf4, Hf3, Hl4, Hl3, Hn3, Hn2, Hl2.
    unfold k. by rewrite delete_middle, app_nil_r.
  - assert (Hsplit : in_flight w2 = (in_flight w ++ [a]) ++ [b]).
    { rewrite Hf2. by rewrite <- app_assoc. }
    assert (Hlen : length (in_flight w ++ [a]) = S k).
    { rewrite length_app. simpl. unfold k. lia. }
    assert (Hkb : in_flight w2 !! S k = Some b).
    { rewrite Hsplit, <- Hlen. by apply list_lookup_middle. }
    destruct (answer_adds_edges (S k) ob b w2 Hkb) as (Hn3 & Hs3 & Hf3 & Hl3).
    cbn zeta in Hn3, Hs3, Hf3, Hl3.
    set (w3 := step w2 (RelFetched (S k) ob)) in *.
    rewrite Hsplit, <- Hlen, delete_middle, app_nil_r in Hf3.
    assert (Hka : in_flight w3 !! k = Some a).
    { rewrite Hf3. by apply list_lookup_middle. }
    destruct (answer_adds_edges k oa a w3 Hka) as (Hn4 & Hs4 & Hf4 & Hl4).
    cbn zeta in Hn4, Hs4, Hf4, Hl4.
    rewrite Hs4, Hs3, Hf4, Hf3, Hl4, Hl3, Hn3, Hn2, Hl2.
    unfold k. by rewrite delete_middle, app_nil_r.
Qed.

(** ** Bodies that are not arrays of objects *)

Lemma createGraph_not_empty random uo go w ulen glen :
  get_prop (collection uo) "length" = Return ulen ->
  get_prop (collection go) "length" = Return glen ->
  strict_eq ulen (VNum 0) && strict_eq glen (VNum 0) = false ->
  createGraph random uo go w =
  loops random (collection uo) (collection go) (after_fetchNodes uo go w).
Proof.
  intros Hul Hgl Hz. unfold createGraph. unfold bind at 1. rewrite fetchNodes_eq.
  cbn [fst snd]. fold (loops random (collection uo) (collection go)).
  unfold bind at 1. unfold lift at 1. rewrite Hul.
  destruct (strict_eq ulen (VNum 0)).
  - unfold bind at 1. unfold lift at 1. rewrite Hgl.
    simpl in Hz. by rewrite Hz.
  - unfold bind at 1. unfold ret at 1. done.
Qed.

Lemma createGraph_empty random uo go w ulen glen :
  get_prop (collection uo) "length" = Return ulen ->
  get_prop (collection go) "length" = Return glen ->
  strict_eq ulen (VNum 0) && strict_eq glen (VNum 0) = true ->
  createGraph random uo go w =
  (Return tt,
   set_console (console (after_fetchNodes uo go w) ++ [WarnNoNodes])
     (after_fetchNodes uo go w)).
Proof.
  intros Hul Hgl [Hu Hg]%andb_prop. unfold createGraph. unfold bind at 1.
  rewrite fetchNodes_eq. cbn [fst snd].
  unfold bind at 1. unfold lift at 1. rewrite Hul, Hu.
  unfold bind at 1. unfold lift at 1. rewrite Hgl, Hg. done.
Qed.

Lemma collection_length o : exists v, get_prop (collection o) "length" = Return v.
Proof.
  unfold collection, js_or. destruct (truthy (received o)) eqn:Ht; [|by eexists].
  destruct (received o); try done; by eexists.
Qed.

Lemma datas_until_null (us : list object) rest :
  datas user_data ((VObj <$> us) ++ VNull :: rest) = user_object <$> us /\
  all_ok user_data ((VObj <$> us) ++ VNull :: rest) = false.
Proof.
  induction us as [|u us [IH1 IH2]]; [done|].
  rewrite !fmap_cons. cbn [app datas all_ok]. by rewrite user_data_object, IH1, IH2.
Qed.

(** [X7].  When both collections are empty, because the requests failed,
    brought back [null] or brought back empty arrays, [createGraph] builds
    nothing, draws no random number, writes the warning and returns
    normally. *)
Theorem empty_graph_warns random uo go :
  collection uo = VArr [] -> collection go = VArr [] ->
  let w := loaded random uo go in
  nodes w = [] /\ scene w = [] /\ uncaught w = [] /\ rng_calls w = 0 /\
  last (console w) = Some WarnNoNodes.
Proof.
  intros Hu Hg w. unfold w, loaded.
  rewrite (createGraph_empty random uo go boot (VNum 0) (VNum 0))
    by (by rewrite ?Hu, ?Hg).
  by repeat split.
Qed.

(** [X8].  A collection that arrives as a JSON object, for example an
    error body, makes [createGraph] throw a [TypeError].  When it is the
    users, no node at all is built, whatever the groups request brought
    back; when it is the groups, the users are built and no group. *)
Theorem object_instead_of_array random status status' (body : object)
    (rs : list object) go :
  body !! "length" = None ->
  (let w := loaded random (Response status (Some (VObj body))) go in
   nodes w = [] /\ scene w = [] /\ uncaught w = [TypeError]) /\
  (let w := loaded random (collection_response status' rs)
                   (Response status (Some (VObj body))) in
   userData <$> nodes w = user_object <$> rs /\ uncaught w = [TypeError]).
Proof.
  intros Hlen.
  assert (Hb : get_prop (VObj body) "length" = Return VUndef).
  { simpl. unfold get. by rewrite Hlen. }
  split.
  - intros w. unfold w, loaded.
    destruct (collection_length go) as [glen Hgl].
    rewrite (createGraph_not_empty random (Response status (Some (VObj body))) go
               boot VUndef glen Hb Hgl) by done.
    rewrite loops_eq. cbn zeta.
    change (collection (Response status (Some (VObj body)))) with (VObj body).
    cbn [is_array records andb]. by rewrite build_nil.
  - intros w. unfold w, loaded.
    destruct (collection_length (collection_response status' rs)) as [ulen Hul].
    rewrite (createGraph_not_empty random (collection_response status' rs)
               (Response status (Some (VObj body))) boot ulen VUndef Hul Hb)
      by (by rewrite andb_false_r).
    rewrite loops_eq. cbn zeta. rewrite collection_of_response.
    change (collection (Response status (Some (VObj body)))) with (VObj body).
    cbn [is_array records andb]. rewrite all_ok_users, build_nil.
    unfold build. simpl. by rewrite datas_users, userData_spheres.
Qed.

(** [X9].  A [null] among the user records stops [createGraph] there with
    a [TypeError]: the users before it are registered, those after it and
    all the groups are not. *)
Theorem null_record_stops_the_build random status (us : list object) rest go :
  let w := loaded random (Response status (Some (VArr ((VObj <$> us) ++ VNull :: rest)))) go in
  userData <$> nodes w = user_object <$> us /\
  length (scene w) = length us /\
  uncaught w = [TypeError].
Proof.
  intros w. unfold w, loaded.
  set (users := (VObj <$> us) ++ VNull :: rest).
  destruct (collection_length go) as [glen Hgl].
  assert (Hul : get_prop (collection (Response status (Some (VArr users)))) "length"
                = Return (VNum (Z.of_nat (length users)))) by done.
  assert (Hnz : strict_eq (VNum (Z.of_nat (length users))) (VNum 0) = false).
  { unfold users. rewrite length_app. simpl. apply Z.eqb_neq. lia. }
  rewrite (createGraph_not_empty random _ go boot _ glen Hul Hgl) by (by rewrite Hnz).
  rewrite loops_eq. cbn zeta.
  change (collection (Response status (Some (VArr users)))) with (VArr users).
  cbn [is_array records andb].
  destruct (datas_until_null us rest) as [Hd Hok]. fold users in Hd, Hok.
  rewrite Hok. unfold build. simpl. rewrite Hd.
  by rewrite userData_spheres, length_fmap, length_spheres, length_fmap.
Qed.

(** ** What a node carries *)

(** [X10].  The [userData] of a user node keeps every field of the record
    as it is, except [type], which becomes ["user"] even when the record
    has a [type] of its own, and [user_id], which becomes the identity. *)
Theorem user_fields_kept (record : object) k :
  k <> "type" -> k <> "user_id" ->
  exists d, user_data (VObj record) = Return d /\
            get d k = get record k /\
            get d "type" = VStr "user".
Proof.
  intros Ht Hu. exists (user_object record). split; [apply user_data_object|].
  split.
  - unfold user_object, get at 1.
    destruct (decide (k = "city")) as [->|Hc]; [by rewrite lookup_insert_eq|].
    rewrite lookup_insert_ne by done.
    destruct (decide (k = "home_town")) as [->|Hh]; [by rewrite lookup_insert_eq|].
    rewrite lookup_insert_ne by done.
    destruct (decide (k = "sex")) as [->|Hs]; [by rewrite lookup_insert_eq|].
    by rewrite !lookup_insert_ne by done.
  - eapply user_data_type, user_data_object.
Qed.

(** [X11].  The [userData] of a group node keeps every field of the record
    as it is, except [type], which becomes ["group"], and [group_id], which
    becomes the identity. *)
Theorem group_fields_kept (record : object) k :
  k <> "type" -> k <> "group_id" ->
  exists d, group_data (VObj record) = Return d /\
            get d k = get record k /\
            get d "type" = VStr "group".
Proof.
  intros Ht Hg. exists (group_object record). split; [apply group_data_object|].
  split.
  - unfold group_object, get at 1. by rewrite !lookup_insert_ne by done.
  - eapply group_data_type, group_data_object.
Qed.

Lemma node_type random uo go n :
  n ∈ nodes (loaded random uo go) ->
  get (userData n) "type" = VStr "user" \/ get (userData n) "type" = VStr "group".
Proof.
  rewrite nodes_loaded. intros [Hn|Hn]%elem_of_app.
  - left. pose proof (user_spheres_type random uo) as H.
    rewrite Forall_forall in H. by apply H.
  - right. pose proof (group_spheres_type random uo go) as H.
    rewrite Forall_forall in H. by apply H.
Qed.

(** [X12].  Whatever the two requests brought back, every node of the
    registry is a user, drawn in red, or a group, drawn in blue: the colour
    tells the [type] stored in the node. *)
Theorem color_tells_kind random uo go n :
  n ∈ nodes (loaded random uo go) ->
  (get (userData n) "type" = VStr "user" /\ color n = 0xff0000%Z) \/
  (get (userData n) "type" = VStr "group" /\ color n = 0x0000ff%Z).
Proof.
  rewrite nodes_loaded. intros [Hn|Hn]%elem_of_app.
  - left. split.
    + pose proof (user_spheres_type random uo) as H.
      rewrite Forall_forall in H. by apply H.
    + apply list_elem_of_lookup in Hn as [i Hi].
      unfold user_spheres, spheres in Hi. rewrite list_lookup_imap in Hi.
      destruct (_ !! i); by simplify_eq/=.
  - right. split.
    + pose proof (group_spheres_type random uo go) as H.
      rewrite Forall_forall in H. by apply H.
    + unfold group_spheres in Hn. case_match; [|by apply elem_of_nil in Hn].
      apply list_elem_of_lookup in Hn as [i Hi].
      unfold spheres in Hi. rewrite list_lookup_imap in Hi.
      destruct (_ !! i); by simplify_eq/=.
Qed.


Lemma truthy_placeholder v s :
  s <> EmptyString -> truthy (js_or v (VStr s)) = true.
Proof.
  intros Hs. unfold js_or. destruct (truthy v) eqn:Hv; [done|].
  simpl. by destruct s.
Qed.

(** [X13].  The panel of a node of the registry has the rows Type, ID,
    Name, Sex, Home Town, City for a user and Type, ID, Name, Subscribers
    Count for a group, and no row shows [undefined], [null], [0] or an
    empty text: a field that is missing or falsy is shown as ["-"] (["0"]
    for the subscribers). *)
Theorem panel_never_blank random uo go n :
  n ∈ nodes (loaded random uo go) ->
  let rows := info_rows (userData n) in
  Forall (fun row => truthy row.2 = true) rows /\
  (rows.*1 = ["Type"; "ID"; "Name"; "Sex"; "Home Town"; "City"] \/
   rows.*1 = ["Type"; "ID"; "Name"; "Subscribers Count"]).
Proof.
  intros Hn rows. unfold rows, info_rows.
  destruct (node_type random uo go n Hn) as [->| ->]; simpl.
  - split; [|by left].
    repeat constructor; simpl; by apply truthy_placeholder.
  - split; [|by right].
    repeat constructor; simpl; by apply truthy_placeholder.
Qed.

(** [X14].  The relationships of a node are asked under its [type] and
    under [user_id || group_id].  So a user is asked by its identity, or,
    when that is falsy, by the [group_id] field of its record; and a group
    whose record carries a truthy [user_id] is asked by that [user_id], not
    by its own identity. *)
Theorem relationships_request_address id c p (record : object) :
  relationships_url (Node id c p (user_object record)) =
    RelationshipsUrl (VStr "user")
      (if truthy (js_or (get record "user_id") (get record "id"))
       then js_or (get record "user_id") (get record "id")
       else get record "group_id") /\
  relationships_url (Node id c p (group_object record)) =
    RelationshipsUrl (VStr "group")
      (if truthy (get record "user_id")
       then get record "user_id"
       else js_or (get record "group_id") (get record "id")).
Proof.
  unfold relationships_url. cbn [userData]. split.
  - assert (Hg : get (user_object record) "group_id" = get record "group_id").
    { unfold user_object, get at 1. by rewrite !lookup_insert_ne by done. }
    rewrite user_object_identity, Hg.
    by rewrite (user_data_type _ _ (user_data_object record)).
  - rewrite group_object_identity.
    rewrite (group_data_type _ _ (group_data_object record)).
    unfold js_or at 1.
    assert (Hu : get (group_object record) "user_id" = get record "user_id").
    { unfold group_object, get at 1. by rewrite !lookup_insert_ne by done. }
    by rewrite Hu.
Qed.

(** ** Relationship lists with an entry that is [null] *)

Lemma truthy_js_or a b : truthy (js_or a b) = truthy a || truthy b.
Proof. unfold js_or. by destruct (truthy a) eqn:Ha; rewrite ?Ha. Qed.

Lemma node_matches_null n :
  node_matches VNull n = if truthy (node_identity n) then Throw TypeError else Return false.
Proof.
  unfold node_identity. rewrite truthy_js_or.
  unfold node_matches, field_matches, and_then.
  destruct (truthy (get (userData n) "user_id")); [done|].
  by destruct (truthy (get (userData n) "group_id")).
Qed.

Lemma find_null_throws ns m :
  m ∈ ns -> truthy (node_identity m) = true ->
  find (node_matches VNull) ns = Throw TypeError.
Proof.
  intros Hm Ht. induction Hm as [m ns|m a ns Hm IH]; simpl.
  - by rewrite node_matches_null, Ht.
  - rewrite node_matches_null. destruct (truthy (node_identity a)); [done|]. by apply IH.
Qed.

Lemma targets_until_throw ns (rels : list object) r rest e :
  find (node_matches r) ns = Throw e ->
  targets ns ((VObj <$> rels) ++ r :: rest) =
    omap (fun rel => first_node (refers_to_truthy rel) ns) rels /\
  resolve_throws ns ((VObj <$> rels) ++ r :: rest) = true.
Proof.
  intros Hr. induction rels as [|rel rels [IH1 IH2]].
  - simpl. by rewrite Hr.
  - rewrite fmap_cons. cbn [app targets resolve_throws omap list_omap].
    rewrite find_object, IH1, IH2.
    by destruct (first_node (refers_to_truthy rel) ns).
Qed.


(** ** Where the edges end *)

Lemma find_elem (p : node -> completion bool) ns t :
  find p ns = Return (Some t) -> t ∈ ns.
Proof.
  induction ns as [|m ms IH]; simpl; [done|].
  destruct (p m) as [[|]|e]; intros H; simplify_eq; [left|right; auto].
Qed.

Lemma targets_registered ns rels : Forall (fun t => t ∈ ns) (targets ns rels).
Proof.
  induction rels as [|r rels IH]; simpl; [constructor|].
  destruct (find (node_matches r) ns) as [[t|]|e] eqn:Hf; try done.
  constructor; [by eapply find_elem|done].
Qed.

Lemma new_lines_end id0 n ns rels :
  Forall (fun l => exists t, t ∈ ns /\ points l = edge n t)
         (new_lines id0 n (targets ns rels)).
Proof.
  apply Forall_forall. intros l Hl.
  apply list_elem_of_lookup in Hl as [i Hi].
  unfold new_lines in Hi. rewrite list_lookup_imap in Hi.
  destruct (targets ns rels !! i) as [t|] eqn:Ht; simplify_eq/=.
  exists t. split; [|done].
  pose proof (targets_registered ns rels) as H. rewrite Forall_forall in H.
  apply H. by eapply list_elem_of_lookup_2.
Qed.

Lemma lines_end_step ns w e :
  tidy w -> nodes w = ns ->
  Forall (fun l => exists t, t ∈ ns /\ (points l).2 = position t) (lines w) ->
  Forall (fun l => exists t, t ∈ ns /\ (points l).2 = position t) (lines (step w e)).
Proof.
  intros Ht Hn Hl. destruct e as [[n|]|k o].
  - rewrite step_click_some by done. constructor.
  - rewrite step_click_none by done. unfold unselected.
    destruct (selectedNode w); [constructor|done].
  - destruct (in_flight w !! k) as [n|] eqn:Hk; [|by simpl; rewrite Hk].
    rewrite (step_fetched _ _ _ _ Hk). cbn zeta. unfold resumed.
    cbn [nodes next_id set_in_flight].
    assert (Hnew : Forall (fun l => exists t, t ∈ ns /\ (points l).2 = position t)
                     (lines w ++ new_lines (next_id w) n (targets (nodes w) (entries o)))).
    { apply Forall_app. split; [done|]. rewrite Hn.
      eapply Forall_impl; [apply new_lines_end|].
      intros l (t & Ht' & ->). by exists t. }
    by destruct (resolution_throws (nodes w) o).
Qed.

(** [X16].  Every relationship edge ever drawn ends at the position of a
    node of the registry: no edge points to a place where no node is. *)
Theorem edges_end_at_nodes random uo go evs :
  Forall (fun l => exists t, t ∈ nodes (loaded random uo go) /\
                             (points l).2 = position t)
         (drawn_edges (run (loaded random uo go) evs)).
Proof.
  rewrite drawn_edges_tidy by apply tidy_run, tidy_loaded.
  assert (H : forall w, tidy w -> nodes w = nodes (loaded random uo go) ->
            Forall (fun l => exists t, t ∈ nodes (loaded random uo go) /\
                                       (points l).2 = position t) (lines w) ->
            Forall (fun l => exists t, t ∈ nodes (loaded random uo go) /\
                                       (points l).2 = position t) (lines (run w evs))).
  { induction evs as [|e evs IH]; intros w Ht Hn Hl; [done|].
    change (run w (e :: evs)) with (run (step w e) evs).
    apply IH; [by apply tidy_step|by rewrite nodes_step|by apply lines_end_step]. }
  apply H; [apply tidy_loaded|done|].
  destruct (idle_loaded random uo go) as (_ & _ & _ & ->). constructor.
Qed.

(** ** The pointer *)

(** [X17].  A click inside the window is mapped into the square
    [[-1, 1] x [-1, 1]]: the left edge to [-1], the right edge to [1], the
    top edge to [1] and the bottom edge to [-1] (over the real numbers). *)
Theorem mouse_in_square (x y width height : R) :
  (0 < width)%R -> (0 < height)%R ->
  (0 <= x <= width)%R -> (0 <= y <= height)%R ->
  (-1 <= (mouse x y width height).1 <= 1)%R /\
  (-1 <= (mouse x y width height).2 <= 1)%R /\
  mouse 0 0 width height = ((-1)%R, 1%R) /\
  mouse width height width height = (1%R, (-1)%R).
Proof.
  intros Hw Hh Hx Hy. unfold mouse. cbn [fst snd].
  assert (Hqx : (0 <= x / width <= 1)%R).
  { split.
    - apply Rmult_le_pos; [lra|]. left. by apply Rinv_0_lt_compat.
    - apply (Rmult_le_reg_r width); [done|].
      replace (x / width * width)%R with x by (field; lra). lra. }
  assert (Hqy : (0 <= y / height <= 1)%R).
  { split.
    - apply Rmult_le_pos; [lra|]. left. by apply Rinv_0_lt_compat.
    - apply (Rmult_le_reg_r height); [done|].
      replace (y / height * height)%R with y by (field; lra). lra. }
  split; [lra|]. split; [lra|]. split; f_equal; field; lra.
Qed.

End FurtherProperties.

(** * The further properties on sample inputs *)

(** [X7], when the users request fails in transport and the body of the
    groups request does not parse. *)
Lemma empty_graph_warns_witness :
  let w := loaded no_jitter NetworkError (Response 500 None) in
  nodes w = [] /\ scene w = [] /\ uncaught w = [] /\ rng_calls w = 0 /\
  last (console w) = Some WarnNoNodes.
Proof.
  apply (empty_graph_warns no_jitter NetworkError (Response 500 None)); reflexivity.
Defined.

(** [X8], on an error body. *)
Lemma object_instead_of_array_witness :
  (let w := loaded no_jitter (Response 401 (Some (VObj error_body))) group_seven in
   nodes w = [] /\ scene w = [] /\ uncaught w = [TypeError]) /\
  (let w := loaded no_jitter (collection_response 200 [typed_user])
                   (Response 401 (Some (VObj error_body))) in
   userData <$> nodes w = user_object <$> [typed_user] /\ uncaught w = [TypeError]).
Proof.
  apply (object_instead_of_array no_jitter 401 200 error_body [typed_user] group_seven).
  vm_compute. reflexivity.
Defined.

(** [X10], on a record with a [type] of its own. *)
Lemma user_fields_kept_witness :
  exists d, user_data (VObj typed_user) = Return d /\
            get d "followers" = get typed_user "followers" /\
            get d "type" = VStr "user".
Proof. apply (user_fields_kept typed_user "followers"); discriminate. Defined.

(** [X11], on a group that carries the [user_id] of its owner. *)
Lemma group_fields_kept_witness :
  exists d, group_data (VObj owned_group) = Return d /\
            get d "user_id" = get owned_group "user_id" /\
            get d "type" = VStr "group".
Proof. apply (group_fields_kept owned_group "user_id"); discriminate. Defined.

(** [X12], on the sample node. *)
Lemma color_tells_kind_witness :
  (get (userData sample_node) "type" = VStr "user" /\ color sample_node = 0xff0000%Z) \/
  (get (userData sample_node) "type" = VStr "group" /\ color sample_node = 0x0000ff%Z).
Proof.
  apply (color_tells_kind no_jitter one_user no_groups sample_node).
  fold sample_world. rewrite nodes_sample_world. left.
Defined.

(** [X13], on the sample node. *)
Lemma panel_never_blank_witness :
  let rows := info_rows (userData sample_node) in
  Forall (fun row => truthy row.2 = true) rows /\
  (rows.*1 = ["Type"; "ID"; "Name"; "Sex"; "Home Town"; "City"] \/
   rows.*1 = ["Type"; "ID"; "Name"; "Subscribers Count"]).
Proof.
  apply (panel_never_blank no_jitter one_user no_groups sample_node).
  fold sample_world. rewrite nodes_sample_world. left.
Defined.


(** [X17], on a click in the middle of a window of 800 by 600. *)
Lemma mouse_in_square_witness :
  (-1 <= (mouse 400 300 800 600).1 <= 1)%R /\
  (-1 <= (mouse 400 300 800 600).2 <= 1)%R /\
  mouse 0 0 800 600 = ((-1)%R, 1%R) /\
  mouse 800 600 800 600 = (1%R, (-1)%R).
Proof. apply (mouse_in_square 400 300 800 600); lra. Defined.

(** ** A click on a node *)

Section ClickOnNode.

Context `{engine : arithmetic}.

(** [X18].  A click that hits a node selects it, removes every edge from
    the scene at once, before any answer, and sends one request, which
    joins the requests still in flight; the panel of the previous selection
    is removed, but a panel shown while nothing was selected stays until the
    answer arrives. *)
Theorem click_on_node random uo go evs n :
  let w := run (loaded random uo go) evs in
  let w' := step w (Click (Some n)) in
  selectedNode w' = Some n /\
  drawn_edges w' = [] /\
  in_flight w' = in_flight w ++ [n] /\
  node_info w' = match selectedNode w with Some _ => None | None => node_info w end /\
  uncaught w' = uncaught w.
Proof.
  intros w w'.
  assert (Ht : tidy w) by apply tidy_run, tidy_loaded.
  assert (Ht' : tidy w') by (by apply tidy_step).
  rewrite (drawn_edges_tidy _ Ht'). unfold w'.
  by rewrite step_click_some by done.
Qed.

End ClickOnNode.

(** ** The camera *)

(** Every node the engine of the real numbers builds lies inside the ball
    of radius 15. *)
Lemma norm_loaded_ideal (random : nat -> R) uo go n :
  (forall i, (0 <= random i < 1)%R) ->
  n ∈ nodes (loaded (engine := ideal) random uo go) ->
  (norm (position n) < 15)%R.
Proof.
  intros Hr Hn.
  destruct (position_loaded (engine := ideal) random uo go n Hn) as [k ->].
  by apply norm_place.
Qed.

Lemma depth_le_norm (p : vec3) : (Rabs p.2 <= norm p)%R.
Proof.
  unfold norm. rewrite <- sqrt_Rsqr_abs. apply sqrt_le_1_alt.
  pose proof (Rle_0_sqr p.1.1). pose proof (Rle_0_sqr p.1.2). lra.
Qed.

(** [X19].  Every node of the registry lies between the near and the far
    plane of the camera as the page places it: between 10 and 40 units in
    front of it (over the real numbers). *)
Theorem nodes_in_front_of_camera random uo go n :
  (forall k, (0 <= random k < 1)%R) ->
  n ∈ nodes (loaded (engine := ideal) random uo go) ->
  (camera_near <= 10 <= camera_depth (position n))%R /\
  (camera_depth (position n) <= 40 <= camera_far)%R.
Proof.
  intros Hr Hn.
  pose proof (norm_loaded_ideal random uo go n Hr Hn) as Hnorm.
  pose proof (depth_le_norm (position n)) as Hd.
  unfold camera_depth, camera_near, camera_far, camera_z.
  assert (Habs : (Rabs (position n).2 < 15)%R) by lra.
  apply Rabs_def2 in Habs. lra.
Qed.

(** [X19], on the sample node. *)
Lemma nodes_in_front_of_camera_witness :
  (camera_near <= 10 <= camera_depth (position sample_node))%R /\
  (camera_depth (position sample_node) <= 40 <= camera_far)%R.
Proof.
  apply (nodes_in_front_of_camera no_jitter one_user no_groups sample_node).
  - intros k. unfold no_jitter. lra.
  - fold sample_world. rewrite nodes_sample_world. left.
Defined.
